(** * stockapp: the dashboard controller and the chart renderer

    A shallow embedding of [src/components/stock-chart.tsx] (the chart
    renderer, the search form, and the page component [Home] with its
    [fetcher]).

    Conventions of the embedding.
    - A JavaScript [number] holding a price, a pixel coordinate or a ratio is
      an exact rational [Q]: rounding of IEEE doubles, [NaN] and the
      infinities are not modelled.  A division by zero, infinite or [NaN] in
      JavaScript, is outside the model; the statements below that divide
      have a divisor known to be non-zero.
    - A JavaScript [Date] is its time value: milliseconds since the epoch as
      [Z], or [None] for an invalid date ([NaN]).
    - The local time zone is a fixed offset [tza] in milliseconds (no
      daylight-saving transitions).
    - Exceptions are modelled by a sum type: [inl] carries the message of the
      thrown [Error].
    - A JavaScript string is a string of ASCII characters: the white space
      [trim] removes and the letters [toUpperCase] changes are the ASCII
      ones. *)

From Stdlib Require Import ZArith QArith Qminmax Qabs Qround.
From Stdlib Require Import List String Ascii DecimalString Bool Arith.
From Stdlib Require Import Sorted RelationClasses Lia Lqa.
Import ListNotations.

Set Warnings "-register-all".

Local Open Scope Z_scope.

(** ** The time values of ECMAScript [Date] objects *)

Module JSDate.

Definition msPerDay : Z := 86400000.

Definition Day (t : Z) : Z := t / msPerDay.
Definition TimeWithinDay (t : Z) : Z := t mod msPerDay.

Definition DayFromYear (y : Z) : Z :=
  365 * (y - 1970) + (y - 1969) / 4 - (y - 1901) / 100 + (y - 1601) / 400.

Definition isLeapYear (y : Z) : bool :=
  if negb (y mod 4 =? 0) then false
  else if negb (y mod 100 =? 0) then true
  else if negb (y mod 400 =? 0) then false
  else true.

Definition DaysInYear (y : Z) : Z := if isLeapYear y then 366 else 365.

(** [YearFromTime]: ECMAScript specifies it as the largest [y] whose first
    day is not after the given day; [YearFromDay_spec] below shows that
    this closed form is that year. *)
Definition YearFromDay (d : Z) : Z :=
  let y := 1970 + (400 * d) / 146097 in
  if DayFromYear (y + 1) <=? d then y + 1
  else if d <? DayFromYear y then y - 1
  else y.

Definition YearFromTime (t : Z) : Z := YearFromDay (Day t).
Definition InLeapYear (t : Z) : bool := isLeapYear (YearFromTime t).
Definition DayWithinYear (t : Z) : Z := Day t - DayFromYear (YearFromTime t).

(** Number of days of the year before month [m] (0 = January). *)
Definition monthStart (leap : bool) (m : Z) : Z :=
  let l := if leap then 1 else 0 in
  if m <=? 0 then 0
  else if m =? 1 then 31
  else if m =? 2 then 59 + l
  else if m =? 3 then 90 + l
  else if m =? 4 then 120 + l
  else if m =? 5 then 151 + l
  else if m =? 6 then 181 + l
  else if m =? 7 then 212 + l
  else if m =? 8 then 243 + l
  else if m =? 9 then 273 + l
  else if m =? 10 then 304 + l
  else 334 + l.

Definition monthOfDayWithinYear (leap : bool) (dwy : Z) : Z :=
  let l := if leap then 1 else 0 in
  if dwy <? 31 then 0
  else if dwy <? 59 + l then 1
  else if dwy <? 90 + l then 2
  else if dwy <? 120 + l then 3
  else if dwy <? 151 + l then 4
  else if dwy <? 181 + l then 5
  else if dwy <? 212 + l then 6
  else if dwy <? 243 + l then 7
  else if dwy <? 273 + l then 8
  else if dwy <? 304 + l then 9
  else if dwy <? 334 + l then 10
  else 11.

Definition MonthFromTime (t : Z) : Z :=
  monthOfDayWithinYear (InLeapYear t) (DayWithinYear t).

Definition DateFromTime (t : Z) : Z :=
  DayWithinYear t - monthStart (InLeapYear t) (MonthFromTime t) + 1.

(** [MakeDay]: months outside 0..11 carry into the year, days outside the
    month carry into the neighbouring months. *)
Definition MakeDay (year month date : Z) : Z :=
  let ym := year + month / 12 in
  let mn := month mod 12 in
  DayFromYear ym + monthStart (isLeapYear ym) mn + date - 1.

Definition MakeDate (day time : Z) : Z := day * msPerDay + time.

Definition maxTime : Z := 8640000000000000.

Definition TimeClip (t : Z) : option Z :=
  if Z.abs t <=? maxTime then Some t else None.

Section LocalTime.
(** Offset of local time from UTC, in milliseconds. *)
Variable tza : Z.

Definition LocalTime (t : Z) : Z := t + tza.
Definition UTC (t : Z) : Z := t - tza.

Definition getFullYear (t : Z) : Z := YearFromTime (LocalTime t).
Definition getMonth (t : Z) : Z := MonthFromTime (LocalTime t).
Definition getDate (t : Z) : Z := DateFromTime (LocalTime t).

(** [d.setDate(dt)], [d.setMonth(m)] and [d.setFullYear(y)] on a valid
    date [t]: the new time value ([None]: the date became invalid). *)
Definition setDate (t dt : Z) : option Z :=
  let l := LocalTime t in
  TimeClip (UTC (MakeDate (MakeDay (YearFromTime l) (MonthFromTime l) dt)
                          (TimeWithinDay l))).

Definition setMonth (t m : Z) : option Z :=
  let l := LocalTime t in
  TimeClip (UTC (MakeDate (MakeDay (YearFromTime l) m (DateFromTime l))
                          (TimeWithinDay l))).

Definition setFullYear (t y : Z) : option Z :=
  let l := LocalTime t in
  TimeClip (UTC (MakeDate (MakeDay y (MonthFromTime l) (DateFromTime l))
                          (TimeWithinDay l))).
End LocalTime.

(** [a >= b] on two dates: a comparison of the time values, false as soon
    as one of them is invalid. *)
Definition ge (a b : option Z) : bool :=
  match a, b with
  | Some x, Some y => y <=? x
  | _, _ => false
  end.

End JSDate.

(** ** Parsing of the date strings of the price bars: [new Date(string)] *)

Module DateParse.
Import JSDate.

Definition digit (c : ascii) : option Z :=
  let n := Z.of_nat (nat_of_ascii c) in
  if (48 <=? n) && (n <=? 57) then Some (n - 48) else None.

Definition number2 (a b : ascii) : option Z :=
  match digit a, digit b with
  | Some x, Some y => Some (10 * x + y)
  | _, _ => None
  end.

Definition number4 (a b c d : ascii) : option Z :=
  match number2 a b, number2 c d with
  | Some x, Some y => Some (100 * x + y)
  | _, _ => None
  end.

Definition isDash (c : ascii) : bool := Ascii.eqb c "-".
Definition isColon (c : ascii) : bool := Ascii.eqb c ":".
Definition isSeparator (c : ascii) : bool := Ascii.eqb c "T" || Ascii.eqb c " ".

Definition timeOfDay (h m s : Z) : option Z :=
  if (h <=? 23) && (m <=? 59) && (s <=? 59)
  then Some (h * 3600000 + m * 60000 + s * 1000) else None.

(** [new Date(string)] on the two shapes of date string the quote API
    sends: ["YYYY-MM-DD"], read as midnight UTC, and
    ["YYYY-MM-DD HH:MM:SS"], read as local time.  A day number up to 31
    is accepted in every month and carried over by [MakeDay].  Every
    other string is given an invalid date here; the other shapes that
    [new Date] reads (a year alone, a time with a zone, the formats of
    [toString]) are not modelled, and no statement below relies on a
    string of another shape being invalid. *)
Definition parse (tza : Z) (s : string) : option Z :=
  match list_ascii_of_string s with
  | y1 :: y2 :: y3 :: y4 :: c1 :: m1 :: m2 :: c2 :: d1 :: d2 :: rest =>
      match number4 y1 y2 y3 y4, number2 m1 m2, number2 d1 d2 with
      | Some y, Some m, Some d =>
          if isDash c1 && isDash c2
             && (1 <=? m) && (m <=? 12) && (1 <=? d) && (d <=? 31)
          then
            let day := MakeDay y (m - 1) d in
            match rest with
            | [] => TimeClip (MakeDate day 0)
            | [sep; h1; h2; c3; n1; n2; c4; s1; s2] =>
                match number2 h1 h2, number2 n1 n2, number2 s1 s2 with
                | Some h, Some n, Some sec =>
                    if isSeparator sep && isColon c3 && isColon c4
                    then match timeOfDay h n sec with
                         | Some time => TimeClip (UTC tza (MakeDate day time))
                         | None => None
                         end
                    else None
                | _, _, _ => None
                end
            | _ => None
            end
          else None
      | _, _, _ => None
      end
  | _ => None
  end.

End DateParse.

(** ** Price bars *)

(** [interface StockData]; the chart renderer replaces the date string by a
    parsed date and keeps the other fields ([{...d, date: parseDate(d.date)}]),
    hence the parameter [D]. *)
Record Bar (D : Type) : Type := mkBar {
  date : D;
  open : Q;
  high : Q;
  low : Q;
  close : Q;
  volume : Q
}.

Arguments mkBar {D} date open high low close volume.
Arguments date {D} b.
Arguments open {D} b.
Arguments high {D} b.
Arguments low {D} b.
Arguments close {D} b.
Arguments volume {D} b.

Definition StockData : Type := Bar string.

(** ** Values of a parsed JSON response *)

Inductive JSON : Type :=
| JNull
| JBool (b : bool)
| JNumber (q : Q)
| JString (s : string)
| JArray (items : list JSON)
| JObject (fields : list (string * JSON)).

(** A thrown exception: [new Error(message)], or the [TypeError] of a
    property read on [null]. *)
Inductive Exception : Type :=
| Error (message : string)
| TypeError.

Module JS.

(** Truthiness of a value that may be [undefined] ([None]). *)
Definition truthy (v : option JSON) : bool :=
  match v with
  | None => false
  | Some JNull => false
  | Some (JBool b) => b
  | Some (JNumber q) => negb (Qeq_bool q 0)
  | Some (JString s) => negb (String.eqb s "")
  | Some (JArray _) => true
  | Some (JObject _) => true
  end.

(** [obj[key]] on the property list of an object, in enumeration order. *)
Fixpoint lookup (key : string) (fields : list (string * JSON)) : option JSON :=
  match fields with
  | [] => None
  | (k, v) :: rest => if String.eqb k key then Some v else lookup key rest
  end.

(** [v[key]] for a string key that is not an array index: a [TypeError] on
    [null], the property of an object, [undefined] on anything else. *)
Definition prop (v : JSON) (key : string) : Exception + option JSON :=
  match v with
  | JNull => inl TypeError
  | JObject fields => inr (lookup key fields)
  | _ => inr None
  end.

(** [a[i]] on an array; [None] is the [undefined] outside of it. *)
Definition at_ {A : Type} (a : list A) (i : Z) : option A :=
  if i <? 0 then None else nth_error a (Z.to_nat i).

(** [s.includes(pat)] *)
Fixpoint includes (pat s : string) : bool :=
  String.prefix pat s ||
  match s with
  | EmptyString => false
  | String _ rest => includes pat rest
  end.

Definition keys (fields : list (string * JSON)) : list string := map fst fields.

(** The property name of the array index [i]. *)
Definition indexKey (i : nat) : string :=
  NilEmpty.string_of_uint (Nat.to_uint i).

Fixpoint indexed {A : Type} (i : nat) (l : list A) : list (string * A) :=
  match l with
  | [] => []
  | x :: rest => (indexKey i, x) :: indexed (S i) rest
  end.

(** [Object.entries(v)]: a [TypeError] on [undefined] and [null]. *)
Definition entries (v : option JSON) : Exception + list (string * JSON) :=
  match v with
  | None => inl TypeError
  | Some JNull => inl TypeError
  | Some (JObject fields) => inr fields
  | Some (JArray items) => inr (indexed 0 items)
  | Some (JString s) =>
      inr (indexed 0 (map (fun c => JString (String c EmptyString))
                          (list_ascii_of_string s)))
  | Some (JBool _) => inr []
  | Some (JNumber _) => inr []
  end.

Section ToString.
(** [Number.prototype.toString], not modelled. *)
Variable numberToString : Q -> string.

(** [String(v)], the conversion [new Error(v)] applies to its argument. *)
Fixpoint ToString (v : JSON) : string :=
  match v with
  | JNull => "null"
  | JBool true => "true"
  | JBool false => "false"
  | JNumber q => numberToString q
  | JString s => s
  | JArray items =>
      (fix join (l : list JSON) : string :=
         match l with
         | [] => ""
         | x :: rest =>
             let elt := match x with JNull => "" | _ => ToString x end in
             match rest with
             | [] => elt
             | _ :: _ => elt ++ "," ++ join rest
             end
         end) items
  | JObject _ => "[object Object]"
  end%string.
End ToString.

(** Truthiness of a string. *)
Definition truthyString (s : string) : bool := negb (String.eqb s "").

(** The white space and line terminators of [trim]: tab, line feed,
    vertical tab, form feed, carriage return and space. *)
Definition isWhiteSpace (c : ascii) : bool :=
  let n := nat_of_ascii c in
  ((9 <=? n) && (n <=? 13) || (n =? 32))%nat.

Fixpoint trimStart (s : string) : string :=
  match s with
  | EmptyString => EmptyString
  | String c rest => if isWhiteSpace c then trimStart rest else s
  end.

Fixpoint trimEnd (s : string) : string :=
  match s with
  | EmptyString => EmptyString
  | String c rest =>
      match trimEnd rest with
      | EmptyString => if isWhiteSpace c then EmptyString else String c EmptyString
      | String c' rest' => String c (String c' rest')
      end
  end.

(** [s.trim()] *)
Definition trim (s : string) : string := trimEnd (trimStart s).

Definition isLower (c : ascii) : bool :=
  let n := nat_of_ascii c in ((97 <=? n) && (n <=? 122))%nat.

Definition upper (c : ascii) : ascii :=
  if isLower c then ascii_of_nat (nat_of_ascii c - 32) else c.

(** [s.toUpperCase()] *)
Fixpoint toUpperCase (s : string) : string :=
  match s with
  | EmptyString => EmptyString
  | String c rest => String (upper c) (toUpperCase rest)
  end.

(** The serializer of [URLSearchParams]: letters, digits and [*-._] stand
    for themselves, a space becomes [+], any other byte is percent-encoded
    with upper-case hexadecimal digits. *)
Definition isUnreserved (c : ascii) : bool :=
  let n := nat_of_ascii c in
  ((48 <=? n) && (n <=? 57) || (65 <=? n) && (n <=? 90) || (97 <=? n) && (n <=? 122)
   || (n =? 42) || (n =? 45) || (n =? 46) || (n =? 95))%nat.

Definition hexDigit (n : nat) : ascii :=
  if (n <? 10)%nat then ascii_of_nat (48 + n) else ascii_of_nat (55 + n).

Fixpoint urlencode (s : string) : string :=
  match s with
  | EmptyString => EmptyString
  | String c rest =>
      if Ascii.eqb c " " then String "+" (urlencode rest)
      else if isUnreserved c then String c (urlencode rest)
      else String "%" (String (hexDigit (nat_of_ascii c / 16))
                         (String (hexDigit (nat_of_ascii c mod 16)) (urlencode rest)))
  end.

(** [String(new URLSearchParams(params))] for the entries of the object
    [params], in the order of their insertion. *)
Fixpoint URLSearchParams (params : list (string * string)) : string :=
  match params with
  | [] => ""
  | (name, value) :: rest =>
      let pair := (urlencode name ++ "=" ++ urlencode value)%string in
      match rest with
      | [] => pair
      | _ :: _ => (pair ++ "&" ++ URLSearchParams rest)%string
      end
  end.

End JS.

(** ** The search form: [StockSearch] *)

Module StockSearch.

(** [handleSubmit] with [query] in the input: the argument [onSearch] is
    called with, [None] when the handler returns without calling it. *)
Definition handleSubmit (query : string) : option string :=
  if negb (JS.truthyString (JS.trim query)) then None
  else Some (JS.trim query).

(** The [disabled] attribute of the submit button. *)
Definition disabled (query : string) : bool :=
  negb (JS.truthyString (JS.trim query)).

End StockSearch.

(** ** The dashboard controller: [fetcher] and the component [Home] *)

Module Home.
Import JSDate.

Definition rateLimitMessage : string :=
  "API rate limit exceeded. Please try again in a minute.".

Definition noDataMessage : string :=
  "No data available for this stock symbol. Please check the symbol and try again.".

Section Fetcher.
(** [parseFloat] applied to a property that may be [undefined], and the
    printing of numbers: JavaScript built-ins, taken as parameters. *)
Variable parseFloat : option JSON -> Q.
Variable numberToString : Q -> string.

(** The message of [new Error(v)]. *)
Definition messageOf (v : option JSON) : string :=
  match v with
  | Some x => JS.ToString numberToString x
  | None => ""
  end.

(** The callback of [Object.entries(timeSeries).map]: the five property
    reads throw on a [null] entry. *)
Definition toBar (entry : string * JSON) : Exception + StockData :=
  let (date, values) := entry in
  match JS.prop values "1. open" with
  | inl e => inl e
  | inr o =>
  match JS.prop values "2. high" with
  | inl e => inl e
  | inr h =>
  match JS.prop values "3. low" with
  | inl e => inl e
  | inr l =>
  match JS.prop values "4. close" with
  | inl e => inl e
  | inr c =>
  match JS.prop values "5. volume" with
  | inl e => inl e
  | inr v =>
      inr {| date := date;
             open := parseFloat o;
             high := parseFloat h;
             low := parseFloat l;
             close := parseFloat c;
             volume := parseFloat v |}
  end end end end end.

Fixpoint mapBars (entries : list (string * JSON)) : Exception + list StockData :=
  match entries with
  | [] => inr []
  | entry :: rest =>
      match toBar entry with
      | inl e => inl e
      | inr bar =>
          match mapBars rest with
          | inl e => inl e
          | inr bars => inr (bar :: bars)
          end
      end
  end.

(** [fetcher], from the parsed body [data] of the response on.  [data] is
    the property list of the JSON object the quote API answers with. *)
Definition fetcher (data : list (string * JSON)) : Exception + list StockData :=
  if JS.truthy (JS.lookup "Error Message" data)
  then inl (Error (messageOf (JS.lookup "Error Message" data)))
  else if JS.truthy (JS.lookup "Note" data)
  then inl (Error rateLimitMessage)
  else
    let timeSeriesKey :=
      find (fun key => JS.includes "Time Series" key) (JS.keys data) in
    let timeSeries :=
      match timeSeriesKey with
      | Some key => JS.lookup key data
      | None => JS.lookup "undefined" data   (* [data[undefined]] *)
      end in
    if negb (JS.truthy timeSeries) then inl (Error noDataMessage)
    else
      match JS.entries timeSeries with
      | inl e => inl e
      | inr series =>
          match mapBars series with
          | inl e => inl e
          | inr bars => inr (rev bars)
          end
      end.

(** The value of [timeSeries] in [fetcher]. *)
Definition timeSeries (data : list (string * JSON)) : option JSON :=
  match find (fun key => JS.includes "Time Series" key) (JS.keys data) with
  | Some key => JS.lookup key data
  | None => JS.lookup "undefined" data
  end.

End Fetcher.

Section Component.
(** Offset of local time from UTC, in milliseconds. *)
Variable tza : Z.
(** The state of the component: the fetched series ([None] while there is
    none) and the selected time range. *)
Variable data : option (list StockData).
Variable timeRange : string.

Definition calculateChange : Q :=
  match data with
  | None => 0
  | Some bars =>
      if (List.length bars <? 2)%nat then 0
      else match nth_error bars (List.length bars - 1), nth_error bars 0 with
           | Some last, Some first =>
               (close last - close first) / close first * 100
           | _, _ => 0   (* not reached: the series has two bars *)
           end
  end%Q.

Definition change : Q :=
  match data with
  | Some _ => calculateChange
  | None => 0
  end.

(** The value of [cutoffDate] after the [switch]; [None] for the
    [default] branch, which returns before [cutoffDate] is used.  [now]
    and [cutoffDate] are the two readings of the clock, [new Date()]. *)
Definition cutoff (now cutoffDate : Z) : option (option Z) :=
  if String.eqb timeRange "1D"
  then Some (setDate tza cutoffDate (getDate tza now - 1))
  else if String.eqb timeRange "1M"
  then Some (setMonth tza cutoffDate (getMonth tza now - 1))
  else if String.eqb timeRange "6M"
  then Some (setMonth tza cutoffDate (getMonth tza now - 6))
  else if String.eqb timeRange "1Y"
  then Some (setFullYear tza cutoffDate (getFullYear tza now - 1))
  else if String.eqb timeRange "5Y"
  then Some (setFullYear tza cutoffDate (getFullYear tza now - 5))
  else None.

Definition filterDataByTimeRange (now cutoffDate : Z)
    (data : option (list StockData)) : list StockData :=
  match data with
  | None => []
  | Some data =>
      match cutoff now cutoffDate with
      | None => data
      | Some cutoffDate =>
          filter (fun item => JSDate.ge (DateParse.parse tza (date item)) cutoffDate)
                 data
      end
  end.

Definition filteredData (now cutoffDate : Z) : list StockData :=
  match data with
  | Some _ => filterDataByTimeRange now cutoffDate data
  | None => []
  end.
End Component.

End Home.

(** ** The parts of d3 the chart renderer calls *)

Module D3.
Local Open Scope Q_scope.

(** [a > b] and [a < b] on numbers. *)
Definition gt (a b : Q) : bool := negb (Qle_bool a b).
Definition lt (a b : Q) : bool := negb (Qle_bool b a).

(** [d3.min(values, valueof)] and [d3.max(values, valueof)]; [None] is the
    [undefined] of an empty array. *)
Definition min {A : Type} (values : list A) (valueof : A -> Q) : option Q :=
  fold_left (fun (min : option Q) (d : A) =>
               let value := valueof d in
               match min with
               | None => Some value
               | Some m => if gt m value then Some value else Some m
               end) values None.

Definition max {A : Type} (values : list A) (valueof : A -> Q) : option Q :=
  fold_left (fun (max : option Q) (d : A) =>
               let value := valueof d in
               match max with
               | None => Some value
               | Some m => if lt m value then Some value else Some m
               end) values None.

(** [d3.extent(values, valueof)] on dates: a [null] value ([None]) is
    passed over; the result is [None], for [[undefined, undefined]], when
    no value is a date. *)
Definition extent {A : Type} (values : list A) (valueof : A -> option Z) :
    option (Z * Z) :=
  fold_left (fun (acc : option (Z * Z)) (d : A) =>
               match valueof d with
               | None => acc
               | Some value =>
                   match acc with
                   | None => Some (value, value)
                   | Some (min, max) =>
                       Some (if (value <? min)%Z then value else min,
                             if (max <? value)%Z then value else max)
                   end
               end) values None.

(** A continuous scale with two-point domain and range, unclamped. *)
Record Scale : Type := mkScale {
  domain : Q * Q;
  range : Q * Q
}.

Definition normalize (a b x : Q) : Q :=
  if Qeq_bool (b - a) 0 then 1 # 2 else (x - a) / (b - a).

Definition interpolateNumber (a b t : Q) : Q := a * (1 - t) + b * t.

Definition bimap (domain range : Q * Q) (x : Q) : Q :=
  let (d0, d1) := domain in
  let (r0, r1) := range in
  if lt d1 d0
  then interpolateNumber r1 r0 (normalize d1 d0 x)
  else interpolateNumber r0 r1 (normalize d0 d1 x).

(** [scale(x)] and [scale.invert(y)] of a linear scale. *)
Definition apply (s : Scale) (x : Q) : Q := bimap (domain s) (range s) x.
Definition invert (s : Scale) (y : Q) : Q := bimap (range s) (domain s) y.

(** [new Date(value)]: a value out of the range of dates gives an invalid
    date, and the fraction of a millisecond is dropped. *)
Definition truncate (q : Q) : Z :=
  if Qle_bool 0 q then Qfloor q else Qceiling q.

Definition newDate (value : Q) : option Z :=
  if Qle_bool (Qabs value) (inject_Z JSDate.maxTime)
  then Some (truncate value) else None.

(** [scale(date)] and [scale.invert(y)] of a time scale, whose domain
    holds the time values of its two dates. *)
Definition applyTime (s : Scale) (t : Z) : Q := apply s (inject_Z t).
Definition invertTime (s : Scale) (y : Q) : option Z :=
  newDate (invert s y).

(** The time scale of the chart, whose domain is the extent of the dates:
    [None] stands for the scale whose domain is [[NaN, NaN]], no date
    having been found.  [x(date)] is a number only for a date and a scale
    with a domain ([None]: [undefined] or [NaN]); [x.invert(y)] of the
    scale without a domain is an invalid date. *)
Definition applyDate (x : option Scale) (date : option Z) : option Q :=
  match x, date with
  | Some s, Some t => Some (applyTime s t)
  | _, _ => None
  end.

Definition invertDate (x : option Scale) (y : Q) : option Z :=
  match x with
  | Some s => invertTime s y
  | None => None
  end.

(** [(lo + hi) >>> 1] *)
Definition mid (lo hi : Z) : Z := Z.shiftr ((lo + hi) mod 2 ^ 32) 1.

(** How a run of code with a loop ends. *)
Inductive Outcome (A : Type) : Type :=
| Done (result : A)
| Thrown (e : Exception)
| OutOfFuel.
Arguments Done {A} result.
Arguments Thrown {A} e.
Arguments OutOfFuel {A}.

(** [ascending(v, x) < 0] for an accessed date [v], which may be [null],
    and a valid date [x]: a [null] compares as [NaN]. *)
Definition before (v : option Z) (x : Z) : bool :=
  match v with
  | Some v => (v <? x)%Z
  | None => false
  end.

(** The [do ... while (lo < hi)] loop of [bisector(accessor).left], over
    the array [a] of the accessed dates; reading past the array makes the
    accessor throw. *)
Fixpoint bisectLoop (fuel : nat) (a : list (option Z)) (x : Z) (lo hi : Z) :
    Outcome Z :=
  match fuel with
  | O => OutOfFuel
  | S fuel =>
      let mid := mid lo hi in
      match JS.at_ a mid with
      | None => Thrown TypeError
      | Some v =>
          let lo' := if before v x then (mid + 1)%Z else lo in
          let hi' := if before v x then hi else mid in
          if (lo' <? hi')%Z then bisectLoop fuel a x lo' hi' else Done lo'
      end
  end.

(** [bisector(accessor).left(a, x, lo)] with [hi = a.length]; an invalid
    date [x] does not compare equal to itself.  Every turn of the loop
    narrows [hi - lo], so [a.length] turns are allowed for. *)
Definition bisectLeft (a : list (option Z)) (x : option Z) (lo : Z) : Outcome Z :=
  let hi := Z.of_nat (List.length a) in
  if (lo <? hi)%Z then
    match x with
    | None => Done hi
    | Some x => bisectLoop (List.length a) a x lo hi
    end
  else Done lo.

End D3.

(** ** The chart renderer: [StockChart] *)

Module StockChart.
Local Open Scope Q_scope.

Definition upColor : string := "rgb(34, 197, 94)".
Definition downColor : string := "rgb(239, 68, 68)".

Record Margin : Type := mkMargin { top : Q; right : Q; bottom : Q; left : Q }.
Definition margin : Margin := {| top := 20; right := 30; bottom := 30; left := 60 |}.

(** The SVG elements of one candle.  A horizontal coordinate is [None]
    when the value handed to [attr] is [undefined] or [NaN]. *)
Record Line : Type := mkLine {
  x1 : option Q; x2 : option Q; y1 : Q; y2 : Q; stroke : string
}.
Record Rect : Type := mkRect {
  rect_x : option Q; rect_y : Q; rect_width : Q; rect_height : Q; fill : string
}.
Record Candle : Type := mkCandle { wick : Line; body : Rect }.

(** What one call of the effect draws below the axes. *)
Inductive Glyphs : Type :=
| AreaLine (gradient : Q * Q) (color : string)
           (area : list (option Q * Q * Q)) (line : list (option Q * Q))
| Candlesticks (candles : list Candle).

Section Render.
(** [d3.timeParse("%Y-%m-%d")]: the time value of the parsed date, [None]
    for the [null] of a string of another shape (the renderer asserts it
    non-null, which changes nothing when the code runs). *)
Variable parseDate : string -> option Z.

Variable data : list StockData.
Variable showCandlestick : bool.
Variables width height : Q.

Definition innerWidth : Q := width - left margin - right margin.
Definition innerHeight : Q := height - top margin - bottom margin.

Definition formattedData : list (Bar (option Z)) :=
  map (fun d => {| date := parseDate (date d);
                   open := open d; high := high d; low := low d;
                   close := close d; volume := volume d |}) data.

Definition priceChange : option Q :=
  match nth_error formattedData (List.length formattedData - 1),
        nth_error formattedData 0 with
  | Some last, Some first => Some (close last - close first)
  | _, _ => None
  end.

Definition chartColor : option string :=
  match priceChange with
  | Some priceChange => Some (if Qle_bool 0 priceChange then upColor else downColor)
  | None => None
  end.

(** The time scale; [None] when no date string was parsed (the domain is
    [[NaN, NaN]]). *)
Definition x : option D3.Scale :=
  match D3.extent formattedData (fun d => date d) with
  | Some (first, last) =>
      Some {| D3.domain := (inject_Z first, inject_Z last);
              D3.range := (0, innerWidth) |}
  | None => None
  end.

Definition y : option D3.Scale :=
  match D3.min formattedData (fun d => Qmin (low d) (close d)),
        D3.max formattedData (fun d => Qmax (high d) (close d)) with
  | Some lowest, Some highest =>
      Some {| D3.domain := (lowest * (995 # 1000), highest * (1005 # 1000));
              D3.range := (innerHeight, 0) |}
  | _, _ => None
  end.

Definition candlestickWidth : Q :=
  Qmin ((innerWidth / inject_Z (Z.of_nat (List.length formattedData))) * (8 # 10)) 15.

(** The body of [.each(function(d) {...})]. *)
Definition candlestick (x : option D3.Scale) (y : D3.Scale) (d : Bar (option Z)) :
    Candle :=
  let isUp := Qle_bool (open d) (close d) in
  {| wick := {| x1 := D3.applyDate x (date d);
                x2 := D3.applyDate x (date d);
                y1 := D3.apply y (high d);
                y2 := D3.apply y (low d);
                stroke := if isUp then upColor else downColor |};
     body := {| rect_x := option_map (fun position => position - candlestickWidth / 2)
                                     (D3.applyDate x (date d));
                rect_y := D3.apply y (Qmax (open d) (close d));
                rect_width := candlestickWidth;
                rect_height := Qabs (D3.apply y (open d) - D3.apply y (close d));
                fill := if isUp then upColor else downColor |} |}.

(** The two branches of [if (!showCandlestick)]. *)
Definition glyphs (x : option D3.Scale) (y : D3.Scale) (chartColor : string) :
    option Glyphs :=
  if negb showCandlestick then
    match D3.min formattedData (fun d => low d),
          D3.max formattedData (fun d => high d) with
    | Some lowest, Some highest =>
        Some (AreaLine (D3.apply y lowest, D3.apply y highest) chartColor
                (map (fun d => (D3.applyDate x (date d), innerHeight,
                                D3.apply y (close d))) formattedData)
                (map (fun d => (D3.applyDate x (date d),
                                D3.apply y (close d))) formattedData))
    | _, _ => None
    end
  else Some (Candlesticks (map (candlestick x y) formattedData)).

(** The effect of [useEffect], the [svg] element being mounted: [None] when
    the guard on an empty series returns before anything is drawn. *)
Definition draw : option Glyphs :=
  if (List.length data =? 0)%nat then None
  else match chartColor, y with
       | Some chartColor, Some y => glyphs x y chartColor
       | _, _ => None
       end.

(** [bisect(formattedData, x0, lo)] with
    [bisect = d3.bisector(d => d.date).left]. *)
Definition bisect (x0 : option Z) (lo : Z) : D3.Outcome Z :=
  D3.bisectLeft (map (fun d => date d) formattedData) x0 lo.

(** The [mousemove] handler, up to the bar [d] the tooltip shows, for a
    pointer at horizontal position [pointer]; reading [d.date] of a bar
    outside the array throws. *)
Definition mousemove (x : option D3.Scale) (pointer : Q) :
    D3.Outcome (Bar (option Z)) :=
  let x0 := D3.invertDate x pointer in
  match bisect x0 1 with
  | D3.Done i =>
      match JS.at_ formattedData (i - 1) with
      | Some d => D3.Done d
      | None => D3.Thrown TypeError
      end
  | D3.Thrown e => D3.Thrown e
  | D3.OutOfFuel => D3.OutOfFuel
  end.
End Render.

End StockChart.

(** ** The component [Home]: its state, its request and what it shows *)

Module HomeView.
Local Open Scope string_scope.

Definition ALPHA_VANTAGE_API_KEY : string := "T7GCMIKGFV6I3TEX".

Record RangeParams : Type := mkRangeParams {
  function : string;
  interval : option string;
  outputsize : option string
}.

(** [TIME_RANGES[timeRange]]; [None] is the [undefined] of a missing key
    (the properties every object inherits, such as [toString], are not
    modelled: the type [TimeRange] rules them out). *)
Definition TIME_RANGES (timeRange : string) : option RangeParams :=
  if String.eqb timeRange "1D"
  then Some {| function := "TIME_SERIES_INTRADAY"; interval := Some "5min";
               outputsize := Some "full" |}
  else if String.eqb timeRange "1M"
  then Some {| function := "TIME_SERIES_DAILY"; interval := None;
               outputsize := Some "compact" |}
  else if String.eqb timeRange "6M"
  then Some {| function := "TIME_SERIES_DAILY"; interval := None;
               outputsize := Some "full" |}
  else if String.eqb timeRange "1Y"
  then Some {| function := "TIME_SERIES_WEEKLY"; interval := None;
               outputsize := None |}
  else if String.eqb timeRange "5Y"
  then Some {| function := "TIME_SERIES_MONTHLY"; interval := None;
               outputsize := None |}
  else if String.eqb timeRange "ALL"
  then Some {| function := "TIME_SERIES_MONTHLY"; interval := None;
               outputsize := None |}
  else None.

(** [Object.keys(TIME_RANGES)], the values of the items of the toggle group. *)
Definition rangeKeys : list string := ["1D"; "1M"; "6M"; "1Y"; "5Y"; "ALL"].

(** The spread of an optional parameter:
    [...(value ? { name: value } : {})]. *)
Definition optional (name : string) (value : option string) : list (string * string) :=
  match value with
  | Some v => if JS.truthyString v then [(name, v)] else []
  | None => []
  end.

(** The object handed to [URLSearchParams]; reading a property of a missing
    entry of [TIME_RANGES] throws. *)
Definition params (symbol timeRange : string) : Exception + list (string * string) :=
  match TIME_RANGES timeRange with
  | None => inl TypeError
  | Some range =>
      inr ([("function", function range); ("symbol", symbol)]
           ++ optional "interval" (interval range)
           ++ optional "outputsize" (outputsize range)
           ++ [("apikey", ALPHA_VANTAGE_API_KEY)])%list
  end.

(** The key of [useSWR]: the URL of the request, [None] for the [null] of
    an empty symbol (nothing is fetched). *)
Definition key (symbol timeRange : string) : option (Exception + string) :=
  if JS.truthyString symbol
  then Some match params symbol timeRange with
            | inl e => inl e
            | inr ps => inr ("https://www.alphavantage.co/query?" ++ JS.URLSearchParams ps)
            end
  else None.

(** The three pieces of state of the component. *)
Record State : Type := mkState {
  symbol : string;
  timeRange : string;
  showCandlestick : bool
}.

Definition initial : State :=
  {| symbol := "TATAMOTORS.BSE"; timeRange := "1M"; showCandlestick := false |}.

(** [handleSearch]: the new symbol, [None] when it returns without
    setting one. *)
Definition handleSearch (query : string) : option string :=
  if negb (JS.truthyString query) then None
  else Some (JS.toUpperCase query).

(** What the user does: submits the search form with [query] in its input,
    picks or releases an item of the toggle group ([onValueChange]), flips
    the switch ([onCheckedChange]). *)
Inductive Event : Type :=
| Submit (query : string)
| ValueChange (value : string)
| CheckedChange (checked : bool).

Definition step (s : State) (e : Event) : State :=
  match e with
  | Submit query =>
      match StockSearch.handleSubmit query with
      | Some query =>
          match handleSearch query with
          | Some symbol =>
              {| symbol := symbol; timeRange := timeRange s;
                 showCandlestick := showCandlestick s |}
          | None => s
          end
      | None => s
      end
  | ValueChange value =>
      if JS.truthyString value
      then {| symbol := symbol s; timeRange := value;
              showCandlestick := showCandlestick s |}
      else s
  | CheckedChange checked =>
      {| symbol := symbol s; timeRange := timeRange s; showCandlestick := checked |}
  end.

Definition run (events : list Event) : State := fold_left step events initial.

Definition getChangeColor (change : Q) : string :=
  if Qle_bool 0 change then "text-green-500" else "text-red-500".

Inductive Icon : Type := TrendingUp | TrendingDown.

Definition getChangeIcon (change : Q) : Icon :=
  if Qle_bool 0 change then TrendingUp else TrendingDown.

(** The numbers and classes of the four summary cards, before
    [toFixed] prints them. *)
Record Cards : Type := mkCards {
  currentPrice : Q;
  openingPrice : Q;
  changeIcon : Icon;
  changeColor : string;
  changePercent : Q;
  volumeMillions : Q
}.

(** What a part of the page shows. *)
Inductive Shown (A : Type) : Type :=
| Skeleton
| Hint
| Content (content : A)
| Nothing
| Throws.
Arguments Skeleton {A}.
Arguments Hint {A}.
Arguments Content {A} content.
Arguments Nothing {A}.
Arguments Throws {A}.

Section Render.
Variable parseDate : string -> option Z.
(** What [useSWR] returned and what the filter made of it. *)
Variable data : option (list StockData).
Variable error : option Exception.
Variable isLoading : bool.
Variable filteredData : list StockData.
Variable showCandlestick : bool.

(** The grid of summary cards. *)
Definition cards : Shown Cards :=
  if isLoading then Skeleton
  else if (0 <? List.length filteredData)%nat then
    match nth_error filteredData (List.length filteredData - 1),
          nth_error filteredData 0 with
    | Some last, Some first =>
        Content {| currentPrice := close last;
                   openingPrice := open first;
                   changeIcon := getChangeIcon (Home.change data);
                   changeColor := getChangeColor (Home.change data);
                   changePercent := Home.change data;
                   volumeMillions := (volume last / 1000000)%Q |}
    | _, _ => Throws
    end
  else Nothing.

(** The chart area; the chart is drawn at the default size of
    [StockChart]. *)
Definition chartArea : Shown (option StockChart.Glyphs) :=
  if isLoading then Skeleton
  else match error with
       | Some _ => Hint
       | None =>
           if (0 <? List.length filteredData)%nat
           then Content (StockChart.draw parseDate filteredData showCandlestick 800 400)
           else Nothing
       end.
End Render.

End HomeView.

(** ** Notions of the specification *)

Module Spec.
Import JSDate.

(** The look-back period of a time range. *)
Inductive Period : Type :=
| Days (n : Z)
| Months (n : Z)
| Years (n : Z).

Definition lookBack (timeRange : string) : option Period :=
  if String.eqb timeRange "1D" then Some (Days 1)
  else if String.eqb timeRange "1M" then Some (Months 1)
  else if String.eqb timeRange "6M" then Some (Months 6)
  else if String.eqb timeRange "1Y" then Some (Years 1)
  else if String.eqb timeRange "5Y" then Some (Years 5)
  else None.

Definition daysInMonth (leap : bool) (m : Z) : Z :=
  if m =? 1 then (if leap then 29 else 28)
  else if (m =? 3) || (m =? 5) || (m =? 8) || (m =? 10) then 30
  else 31.

(** Day number of day [date] of the month that is [months] months after
    January of year 0; a [date] the month does not have runs over into
    the next month, as everywhere in JavaScript dates. *)
Definition dayOfMonths (months date : Z) : Z :=
  DayFromYear (months / 12)
  + monthStart (isLeapYear (months / 12)) (months mod 12) + (date - 1).

(** The instant [n] calendar months before [now]: the same day of the
    month and time of day, local time, in the month that lies [n] months
    back. *)
Definition monthsBefore (tza : Z) (n : Z) (now : Z) : option Z :=
  TimeClip (dayOfMonths (12 * getFullYear tza now + getMonth tza now - n)
                        (getDate tza now) * msPerDay
            + TimeWithinDay (LocalTime tza now) - tza).

(** [now] minus a look-back period; a day is 24 hours, a year is twelve
    months. *)
Definition subtract (tza : Z) (p : Period) (now : Z) : option Z :=
  match p with
  | Days n => TimeClip (now - n * msPerDay)
  | Months n => monthsBefore tza n now
  | Years n => monthsBefore tza (12 * n) now
  end.

(** [l1] is [l2] with some elements left out. *)
Inductive Subsequence {A : Type} : list A -> list A -> Prop :=
| Subsequence_nil : Subsequence [] []
| Subsequence_skip : forall x l1 l2, Subsequence l1 l2 -> Subsequence l1 (x :: l2)
| Subsequence_keep : forall x l1 l2, Subsequence l1 l2 -> Subsequence (x :: l1) (x :: l2).

(** Bar [a] is dated strictly before bar [b]; both dates are valid. *)
Definition datedBefore (tza : Z) (a b : StockData) : Prop :=
  match DateParse.parse tza (date a), DateParse.parse tza (date b) with
  | Some x, Some y => x < y
  | _, _ => False
  end.


(** The factor by which a scale stretches differences; 0 when the domain
    is a single point and the scale constant. *)
Definition slope (s : D3.Scale) : Q :=
  let (d0, d1) := D3.domain s in
  let (r0, r1) := D3.range s in
  if Qeq_bool (d1 - d0) 0 then 0 else ((r1 - r0) / (d1 - d0))%Q.


(** [m] is the least, resp. greatest, of the values [f d] over [l]. *)
Definition isMinimum {A : Type} (f : A -> Q) (l : list A) (m : Q) : Prop :=
  (exists d, In d l /\ m = f d) /\ (forall d, In d l -> (m <= f d)%Q).
Definition isMaximum {A : Type} (f : A -> Q) (l : list A) (m : Q) : Prop :=
  (exists d, In d l /\ m = f d) /\ (forall d, In d l -> (f d <= m)%Q).

(** The calendar months of a look-back period, if it is counted in months. *)
Definition months (p : Period) : option Z :=
  match p with
  | Days _ => None
  | Months n => Some n
  | Years n => Some (12 * n)
  end.

(** Date string [s] reads as an instant strictly before that of [t]. *)
Definition dateBefore (tza : Z) (s t : string) : Prop :=
  match DateParse.parse tza s, DateParse.parse tza t with
  | Some x, Some y => x < y
  | _, _ => False
  end.

(** [s] is made of white space only. *)
Fixpoint blank (s : string) : bool :=
  match s with
  | EmptyString => true
  | String c rest => JS.isWhiteSpace c && blank rest
  end.

(** [s] neither starts nor ends with white space. *)
Definition trimmed (s : string) : Prop :=
  (forall c rest, s = String c rest -> JS.isWhiteSpace c = false)
  /\ (forall rest c, s = (rest ++ String c "")%string -> JS.isWhiteSpace c = false).

(** [s] has no lower-case letter. *)
Fixpoint upperCase (s : string) : bool :=
  match s with
  | EmptyString => true
  | String c rest => negb (JS.isLower c) && upperCase rest
  end.

(** The value of a hexadecimal digit, and the decoding of a
    percent-encoded parameter as the receiver of a query string does it. *)
Definition hexValue (c : ascii) : nat :=
  let n := nat_of_ascii c in
  if (n <? 58)%nat then (n - 48)%nat else (n - 55)%nat.

Fixpoint urldecode (s : string) : string :=
  match s with
  | EmptyString => EmptyString
  | String c rest =>
      if Ascii.eqb c "+" then String " " (urldecode rest)
      else if Ascii.eqb c "%" then
        match rest with
        | String h (String l rest') =>
            String (ascii_of_nat (16 * hexValue h + hexValue l)) (urldecode rest')
        | _ => String c (urldecode rest)
        end
      else String c (urldecode rest)
  end.

End Spec.

(** ** Sample inputs *)

Module Sample.

(** Indian Standard Time, UTC+5:30. *)
Definition tza : Z := 19800000.

(** Noon of 15 June 2024, Indian Standard Time. *)
Definition now : Z := 1718433000000.

(** Noon of 31 March 2024 and of 2 March 2024, Indian Standard Time. *)
Definition march31 : Z := 1711866600000.
Definition march2 : Z := 1709361000000.

(** A bar that opened, peaked, bottomed and closed at [price]. *)
Definition flat (date : string) (price : Q) : StockData :=
  {| date := date; open := price; high := price; low := price;
     close := price; volume := 1000000 |}.

Definition may : StockData := flat "2024-05-01" 100.
Definition june : StockData := flat "2024-06-01" 110.

(** A fetched series of two daily bars. *)
Definition series : list StockData := [may; june].

(** A stand-in for [d3.timeParse("%Y-%m-%d")] on strings of ten
    characters: local midnight of the day; [null] for a string of another
    length, such as the keys of the intraday series. *)
Definition parseDate (s : string) : option Z :=
  if (String.length s =? 10)%nat
  then option_map (JSDate.UTC tza) (DateParse.parse tza s)
  else None.

(** Local midnight of 1 May 2024, Indian Standard Time, and the length of
    a day. *)
Definition may1 : Z := 1714501800000.
Definition day : Z := 86400000.

(** The time scale of the chart of [series] at the default width, and a
    pointer in the middle of the plot. *)
Definition xScale : D3.Scale :=
  {| D3.domain := (inject_Z may1, inject_Z (may1 + 31 * day));
     D3.range := (0%Q, 710%Q) |}.

Definition pointer : Q := 355.

(** The sample bars as the renderer formats them. *)
Definition mayBar : Bar (option Z) :=
  {| date := Some may1; open := 100; high := 100; low := 100;
     close := 100; volume := 1000000 |}.
Definition juneBar : Bar (option Z) :=
  {| date := Some (may1 + 31 * day); open := 110; high := 110; low := 110;
     close := 110; volume := 1000000 |}.





(** A stand-in for [parseFloat] on the unsigned decimal literals the quote
    API sends, and for the printing of numbers.  Where JavaScript gives
    [NaN] this one gives 0. *)
Fixpoint decimal (cs : list ascii) (num : Z) (den : positive) (fraction : bool) : Q :=
  match cs with
  | [] => num # den
  | c :: rest =>
      if Ascii.eqb c "."
      then (if fraction then num # den else decimal rest num den true)
      else match DateParse.digit c with
           | Some d =>
               decimal rest (10 * num + d) (if fraction then 10 * den else den)%positive
                       fraction
           | None => num # den
           end
  end.

Definition parseFloat (v : option JSON) : Q :=
  match v with
  | Some (JString s) => decimal (list_ascii_of_string s) 0 1 false
  | Some (JNumber q) => q
  | _ => 0
  end.

Definition numberToString (q : Q) : string := "0".

Definition values (price : string) : JSON :=
  JObject [("1. open", JString price); ("2. high", JString price);
           ("3. low", JString price); ("4. close", JString price);
           ("5. volume", JString "1000000")]%string.

(** The time series of a response, newest bar first as the API sends it. *)
Definition timeSeries : JSON :=
  JObject [("2024-06-01", values "110.0"); ("2024-05-01", values "100.0")]%string.

Definition response : list (string * JSON) :=
  [("Meta Data", JObject [("2. Symbol", JString "TATAMOTORS.BSE")]);
   ("Time Series (Daily)", timeSeries)]%string.









End Sample.

(** * Properties *)

(** ** The calendar of [Date] *)

Module JSDateFacts.
Import JSDate.

Lemma DayFromYear_succ y : DayFromYear (y + 1) = DayFromYear y + DaysInYear y.
Proof.
  unfold DayFromYear, DaysInYear, isLeapYear.
  destruct (Z.eqb_spec (y mod 4) 0); cbn [negb];
    destruct (Z.eqb_spec (y mod 100) 0); cbn [negb];
    destruct (Z.eqb_spec (y mod 400) 0); cbn [negb];
    Z.div_mod_to_equations; lia.
Qed.

Lemma DayFromYear_monotone a b : a <= b -> DayFromYear a <= DayFromYear b.
Proof. intros Hab. unfold DayFromYear. Z.div_mod_to_equations. lia. Qed.

(** [YearFromDay d] is a year that contains day [d] ... *)
Lemma YearFromDay_spec d :
  DayFromYear (YearFromDay d) <= d < DayFromYear (YearFromDay d + 1).
Proof.
  unfold YearFromDay.
  set (y := 1970 + 400 * d / 146097).
  destruct (Z.leb_spec (DayFromYear (y + 1)) d).
  - split; [lia|].
    unfold DayFromYear in *. subst y. Z.div_mod_to_equations. lia.
  - destruct (Z.ltb_spec d (DayFromYear y)).
    + split; [| replace (y - 1 + 1) with y by lia; lia].
      unfold DayFromYear in *. subst y. Z.div_mod_to_equations. lia.
    + split; lia.
Qed.

(** ... and the only one. *)
Lemma YearFromDay_unique d y :
  DayFromYear y <= d < DayFromYear (y + 1) -> YearFromDay d = y.
Proof.
  intros H. pose proof (YearFromDay_spec d) as S.
  destruct (Z.lt_trichotomy (YearFromDay d) y) as [L | [E | G]]; [| exact E |].
  - assert (YearFromDay d + 1 <= y) as M by lia.
    apply DayFromYear_monotone in M. lia.
  - assert (y + 1 <= YearFromDay d) as M by lia.
    apply DayFromYear_monotone in M. lia.
Qed.

Lemma monthOfDayWithinYear_range leap dwy :
  0 <= monthOfDayWithinYear leap dwy <= 11.
Proof.
  unfold monthOfDayWithinYear.
  repeat match goal with
    | |- context [ (?a <? ?b) ] => destruct (Z.ltb_spec a b)
    end; lia.
Qed.

Lemma MonthFromTime_range t : 0 <= MonthFromTime t <= 11.
Proof. apply monthOfDayWithinYear_range. Qed.

Lemma MakeDay_in_year y m d :
  0 <= m <= 11 ->
  MakeDay y m d = DayFromYear y + monthStart (isLeapYear y) m + d - 1.
Proof.
  intros Hm. unfold MakeDay.
  rewrite Z.div_small, Z.mod_small by lia. now rewrite Z.add_0_r.
Qed.

(** Putting the fields of a time value together again gives its day. *)
Lemma MakeDay_fields t :
  MakeDay (YearFromTime t) (MonthFromTime t) (DateFromTime t) = Day t.
Proof.
  rewrite MakeDay_in_year by apply MonthFromTime_range.
  unfold DateFromTime, DayWithinYear, InLeapYear. lia.
Qed.

Lemma MakeDate_Day_TimeWithinDay t : MakeDate (Day t) (TimeWithinDay t) = t.
Proof.
  unfold MakeDate, Day, TimeWithinDay, msPerDay.
  pose proof (Z.div_mod t 86400000). lia.
Qed.

Lemma TimeWithinDay_range t : 0 <= TimeWithinDay t < msPerDay.
Proof. unfold TimeWithinDay, msPerDay. apply Z.mod_pos_bound. lia. Qed.

Lemma Day_MakeDate day time :
  0 <= time < msPerDay ->
  Day (MakeDate day time) = day /\ TimeWithinDay (MakeDate day time) = time.
Proof.
  intros H. unfold Day, TimeWithinDay, MakeDate, msPerDay in *.
  split; Z.div_mod_to_equations; lia.
Qed.

Ltac month_cases m :=
  let H := fresh "Hcases" in
  assert (m = 0 \/ m = 1 \/ m = 2 \/ m = 3 \/ m = 4 \/ m = 5 \/ m = 6 \/ m = 7
          \/ m = 8 \/ m = 9 \/ m = 10 \/ m = 11) as H by lia;
  repeat (destruct H as [-> | H]); [.. | subst m].

Ltac eval_tables :=
  repeat match goal with
    | |- context [monthStart ?l ?m] =>
        let v := eval vm_compute in (monthStart l m) in
        change (monthStart l m) with v
    | H : context [Spec.daysInMonth ?l ?m] |- _ =>
        let v := eval vm_compute in (Spec.daysInMonth l m) in
        change (Spec.daysInMonth l m) with v in H
    end.

Lemma monthOfDayWithinYear_monthStart leap m d :
  0 <= m <= 11 -> 1 <= d <= Spec.daysInMonth leap m ->
  monthOfDayWithinYear leap (monthStart leap m + d - 1) = m.
Proof.
  intros Hm Hd. unfold monthOfDayWithinYear.
  destruct leap; month_cases m; eval_tables;
    repeat match goal with
      | |- context [ (?a <? ?b) ] => destruct (Z.ltb_spec a b); [ lia | ]
      end;
    repeat match goal with
      | |- context [ (?a <? ?b) ] => destruct (Z.ltb_spec a b); [ | lia ]
      end; lia.
Qed.

Lemma monthStart_in_year leap m d :
  0 <= m <= 11 -> 1 <= d <= Spec.daysInMonth leap m ->
  0 <= monthStart leap m + d - 1 < (if leap then 366 else 365).
Proof.
  intros Hm Hd. destruct leap; month_cases m; eval_tables; lia.
Qed.

(** The calendar fields of a date made from the fields of a day that
    exists are those fields. *)
Lemma fields_of_MakeDate y m d time :
  0 <= m <= 11 -> 1 <= d <= Spec.daysInMonth (isLeapYear y) m ->
  0 <= time < msPerDay ->
  let t := MakeDate (MakeDay y m d) time in
  YearFromTime t = y /\ MonthFromTime t = m /\ DateFromTime t = d
  /\ TimeWithinDay t = time.
Proof.
  intros Hm Hd Ht t.
  destruct (Day_MakeDate (MakeDay y m d) time Ht) as [HD HT]. fold t in HD, HT.
  rewrite MakeDay_in_year in HD by assumption.
  pose proof (monthStart_in_year _ _ _ Hm Hd) as B.
  assert (HY : YearFromTime t = y).
  { unfold YearFromTime. apply YearFromDay_unique.
    rewrite HD, DayFromYear_succ. unfold DaysInYear.
    destruct (isLeapYear y); lia. }
  assert (HM : MonthFromTime t = m).
  { unfold MonthFromTime, InLeapYear, DayWithinYear. rewrite HY, HD.
    replace (DayFromYear y + monthStart (isLeapYear y) m + d - 1 - DayFromYear y)
      with (monthStart (isLeapYear y) m + d - 1) by lia.
    now apply monthOfDayWithinYear_monthStart. }
  repeat split; try assumption.
  unfold DateFromTime, InLeapYear, DayWithinYear. rewrite HM, HY, HD. lia.
Qed.

(** [d.setDate(d.getDate() - 1)] moves a date back by 24 hours. *)
Lemma setDate_previous tza t :
  setDate tza t (getDate tza t - 1) = TimeClip (t - msPerDay).
Proof.
  unfold setDate, getDate. f_equal.
  set (l := LocalTime tza t).
  assert (E : MakeDay (YearFromTime l) (MonthFromTime l) (DateFromTime l - 1)
              = Day l - 1).
  { pose proof (MakeDay_fields l) as F.
    rewrite MakeDay_in_year in * by apply MonthFromTime_range. lia. }
  rewrite E. unfold UTC, MakeDate.
  pose proof (MakeDate_Day_TimeWithinDay l) as M. unfold MakeDate in M.
  subst l. unfold LocalTime in *. lia.
Qed.

(** [d.setMonth(d.getMonth() - n)] and [d.setFullYear(d.getFullYear() - n)]
    move a date back by [n], resp. [12 * n], calendar months. *)
Lemma MakeDay_dayOfMonths y m d :
  MakeDay y m d = Spec.dayOfMonths (12 * y + m) d.
Proof.
  unfold MakeDay, Spec.dayOfMonths.
  replace (12 * y + m) with (m + y * 12) by lia.
  rewrite Z.div_add, Z.mod_add by lia.
  replace (y + m / 12) with (m / 12 + y) by lia. lia.
Qed.

Lemma setMonth_unfold tza t m :
  setMonth tza t m =
  TimeClip (MakeDay (getFullYear tza t) m (getDate tza t) * msPerDay
            + TimeWithinDay (LocalTime tza t) - tza).
Proof. reflexivity. Qed.

Lemma setFullYear_unfold tza t y :
  setFullYear tza t y =
  TimeClip (MakeDay y (getMonth tza t) (getDate tza t) * msPerDay
            + TimeWithinDay (LocalTime tza t) - tza).
Proof. reflexivity. Qed.

Lemma setMonth_monthsBefore tza t n :
  setMonth tza t (getMonth tza t - n) = Spec.monthsBefore tza n t.
Proof.
  rewrite setMonth_unfold, MakeDay_dayOfMonths. unfold Spec.monthsBefore.
  replace (12 * getFullYear tza t + (getMonth tza t - n))
    with (12 * getFullYear tza t + getMonth tza t - n) by lia.
  reflexivity.
Qed.

Lemma setFullYear_monthsBefore tza t n :
  setFullYear tza t (getFullYear tza t - n) = Spec.monthsBefore tza (12 * n) t.
Proof.
  rewrite setFullYear_unfold, MakeDay_dayOfMonths. unfold Spec.monthsBefore.
  replace (12 * (getFullYear tza t - n) + getMonth tza t)
    with (12 * getFullYear tza t + getMonth tza t - 12 * n) by lia.
  reflexivity.
Qed.

Lemma TimeClip_Some t c : TimeClip t = Some c -> c = t.
Proof. unfold TimeClip. destruct (Z.abs t <=? maxTime); congruence. Qed.

Lemma TimeClip_in_range t : Z.abs t <= maxTime -> TimeClip t = Some t.
Proof.
  intros H. unfold TimeClip. destruct (Z.leb_spec (Z.abs t) maxTime); [reflexivity | lia].
Qed.

Lemma DateFromTime_positive t : 1 <= DateFromTime t.
Proof.
  pose proof (YearFromDay_spec (Day t)) as S.
  unfold DateFromTime, MonthFromTime, DayWithinYear, InLeapYear, YearFromTime.
  set (dwy := Day t - DayFromYear (YearFromDay (Day t))).
  assert (0 <= dwy) by (unfold dwy; lia).
  generalize (isLeapYear (YearFromDay (Day t))). intros leap.
  clearbody dwy. clear S.
  unfold monthOfDayWithinYear.
  destruct leap;
    repeat match goal with
      | |- context [ (?a <? ?b) ] => destruct (Z.ltb_spec a b)
      end;
    eval_tables; lia.
Qed.

Lemma LocalTime_MakeDate tza day time cutoff :
  cutoff = day * msPerDay + time - tza -> LocalTime tza cutoff = MakeDate day time.
Proof. unfold LocalTime, MakeDate. lia. Qed.

Lemma dayOfMonths_MakeDay months d :
  Spec.dayOfMonths months d = MakeDay (months / 12) (months mod 12) d.
Proof.
  rewrite MakeDay_in_year by (pose proof (Z.mod_pos_bound months 12); lia).
  unfold Spec.dayOfMonths. lia.
Qed.

Lemma mod_12_range m : 0 <= m mod 12 <= 11.
Proof. pose proof (Z.mod_pos_bound m 12). lia. Qed.

Lemma div_mod_12 m : 12 * (m / 12) + m mod 12 = m.
Proof. pose proof (Z.div_mod m 12). lia. Qed.


Lemma monthsBefore_unfold tza n now :
  Spec.monthsBefore tza n now =
  TimeClip (Spec.dayOfMonths (12 * getFullYear tza now + getMonth tza now - n)
                        (getDate tza now) * msPerDay
            + TimeWithinDay (LocalTime tza now) - tza).
Proof. reflexivity. Qed.

Lemma getFullYear_unfold tza t : getFullYear tza t = YearFromTime (LocalTime tza t).
Proof. reflexivity. Qed.
Lemma getMonth_unfold tza t : getMonth tza t = MonthFromTime (LocalTime tza t).
Proof. reflexivity. Qed.
Lemma getDate_unfold tza t : getDate tza t = DateFromTime (LocalTime tza t).
Proof. reflexivity. Qed.

(** What [Spec.monthsBefore] means on the calendar: when the day of the
    month exists in the month [n] months back, the result is that day of
    that month, at the same time of day. *)
Lemma monthsBefore_fields tza n now cutoff months :
  months = 12 * getFullYear tza now + getMonth tza now - n ->
  getDate tza now <= Spec.daysInMonth (isLeapYear (months / 12)) (months mod 12) ->
  Spec.monthsBefore tza n now = Some cutoff ->
  12 * getFullYear tza cutoff + getMonth tza cutoff = months
  /\ getDate tza cutoff = getDate tza now
  /\ TimeWithinDay (LocalTime tza cutoff) = TimeWithinDay (LocalTime tza now).
Proof.
  intros Em Hd E. rewrite monthsBefore_unfold in E.
  apply TimeClip_Some in E. rewrite <- Em in E.
  apply LocalTime_MakeDate in E. rewrite dayOfMonths_MakeDay in E.
  destruct (fields_of_MakeDate (months / 12) (months mod 12) (getDate tza now)
              (TimeWithinDay (LocalTime tza now)) (mod_12_range months)
              (conj (DateFromTime_positive _) Hd) (TimeWithinDay_range _))
    as (FY & FM & FD & FT).
  rewrite (getFullYear_unfold tza cutoff), (getMonth_unfold tza cutoff),
    (getDate_unfold tza cutoff).
  rewrite E, FY, FM, FD, FT.
  repeat split. apply div_mod_12.
Qed.

End JSDateFacts.

(** ** The range filter and the percent change *)

Module HomeFacts.
Import JSDate JSDateFacts Home.

(** The [switch] computes [now] minus the look-back period of the range. *)
Lemma cutoff_lookBack tza timeRange now :
  cutoff tza timeRange now now =
  option_map (fun period => Spec.subtract tza period now) (Spec.lookBack timeRange).
Proof.
  unfold cutoff, Spec.lookBack.
  repeat match goal with
    | |- context [String.eqb ?a ?b] => destruct (String.eqb a b)
    end; cbn [option_map Spec.subtract]; try reflexivity.
  - now rewrite setDate_previous, Z.mul_1_l.
  - now rewrite setMonth_monthsBefore.
  - now rewrite setMonth_monthsBefore.
  - now rewrite setFullYear_monthsBefore.
  - now rewrite setFullYear_monthsBefore.
Qed.

Lemma lookBack_unrecognised timeRange :
  ~ In timeRange ["1D"; "1M"; "6M"; "1Y"; "5Y"]%string ->
  Spec.lookBack timeRange = None.
Proof.
  intros H. unfold Spec.lookBack.
  repeat match goal with
    | |- context [String.eqb ?a ?b] =>
        destruct (String.eqb_spec a b) as [-> | _];
        [exfalso; apply H; cbn; tauto |]
    end.
  reflexivity.
Qed.

Lemma filterDataByTimeRange_lookBack tza timeRange now data :
  filterDataByTimeRange tza timeRange now now (Some data) =
  match Spec.lookBack timeRange with
  | Some period =>
      filter (fun bar => JSDate.ge (DateParse.parse tza (date bar))
                                   (Spec.subtract tza period now)) data
  | None => data
  end.
Proof.
  unfold filterDataByTimeRange. rewrite cutoff_lookBack.
  now destruct (Spec.lookBack timeRange).
Qed.

Lemma parse_2024_05_01 tza :
  DateParse.parse tza "2024-05-01" = Some (19844 * msPerDay).
Proof. reflexivity. Qed.

Lemma parse_2024_06_01 tza :
  DateParse.parse tza "2024-06-01" = Some (19875 * msPerDay).
Proof. reflexivity. Qed.

(** On 15 June 2024 the cutoff of the range 1M is an instant of 15 May
    2024, local time. *)
Lemma subtract_month_on_2024_06_15 tza now :
  - msPerDay <= tza <= msPerDay ->
  getFullYear tza now = 2024 -> getMonth tza now = 5 -> getDate tza now = 15 ->
  exists c, Spec.subtract tza (Spec.Months 1) now = Some c
            /\ 19858 * msPerDay - tza <= c < 19859 * msPerDay - tza.
Proof.
  intros Htz HY HM HD. cbn [Spec.subtract].
  rewrite monthsBefore_unfold, HY, HM, HD.
  pose proof (TimeWithinDay_range (LocalTime tza now)) as R.
  revert R. generalize (TimeWithinDay (LocalTime tza now)). intros tod R.
  clear HY HM HD.
  change (Spec.dayOfMonths (12 * 2024 + 5 - 1) 15) with 19858.
  exists (19858 * msPerDay + tod - tza). split.
  - rewrite TimeClip_in_range; [reflexivity |].
    unfold msPerDay, maxTime in *. lia.
  - lia.
Qed.

(** The cutoff of the sample clock is noon of 15 May 2024; from 31 March
    a month back is 2 March, February having no 31st. *)
Lemma subtract_month_examples :
  Spec.subtract Sample.tza (Spec.Months 1) Sample.now = Some 1715754600000
  /\ DateParse.parse Sample.tza "2024-05-15 12:00:00" = Some 1715754600000
  /\ Spec.subtract Sample.tza (Spec.Months 1) Sample.march31 = Some Sample.march2
  /\ Spec.subtract Sample.tza (Spec.Days 1) Sample.now
     = Some (Sample.now - 86400000).
Proof. repeat split; vm_compute; reflexivity. Qed.

(** C2. For every bar list and time range the range filter keeps exactly
    the bars dated at or after [now] minus the look-back period of the
    range (1 day, 1 month, 6 months, 1 year, 5 years); the range ALL and
    every unrecognised range return the bars unfiltered; and at any
    instant of 15 June 2024 the range 1M drops a bar dated 2024-05-01 and
    keeps a bar dated 2024-06-01. *)
Theorem filterDataByTimeRange_keeps_bars_from_cutoff :
  forall (tza now : Z) (data : list StockData),
    (forall timeRange,
        filterDataByTimeRange tza timeRange now now (Some data) =
        match Spec.lookBack timeRange with
        | Some period =>
            filter (fun bar => JSDate.ge (DateParse.parse tza (date bar))
                                         (Spec.subtract tza period now)) data
        | None => data
        end)
    /\ (forall timeRange,
           timeRange = "ALL"%string
           \/ ~ In timeRange ["1D"; "1M"; "6M"; "1Y"; "5Y"]%string ->
           filterDataByTimeRange tza timeRange now now (Some data) = data)
    /\ (- msPerDay <= tza <= msPerDay ->
        getFullYear tza now = 2024 -> getMonth tza now = 5 ->
        getDate tza now = 15 ->
        forall bar, In bar data ->
          (date bar = "2024-05-01"%string ->
           ~ In bar (filterDataByTimeRange tza "1M" now now (Some data)))
          /\ (date bar = "2024-06-01"%string ->
              In bar (filterDataByTimeRange tza "1M" now now (Some data)))).
Proof.
  intros tza now data. split; [| split].
  - intros timeRange. apply filterDataByTimeRange_lookBack.
  - intros timeRange H. rewrite filterDataByTimeRange_lookBack.
    destruct H as [-> | H]; [reflexivity |].
    now rewrite lookBack_unrecognised.
  - intros Htz HY HM HD bar Hin.
    rewrite filterDataByTimeRange_lookBack.
    change (Spec.lookBack "1M") with (Some (Spec.Months 1)). cbv iota.
    destruct (subtract_month_on_2024_06_15 tza now Htz HY HM HD) as (c & -> & Hc).
    clear HY HM HD.
    split; intros Hdate; rewrite filter_In, Hdate.
    + rewrite parse_2024_05_01. cbn [JSDate.ge].
      intros [_ H]. apply Z.leb_le in H. unfold msPerDay in *. lia.
    + rewrite parse_2024_06_01. cbn [JSDate.ge].
      split; [assumption |]. apply Z.leb_le. unfold msPerDay in *. lia.
Qed.

Lemma filterDataByTimeRange_keeps_bars_from_cutoff_witness :
  (- msPerDay <= Sample.tza <= msPerDay
   /\ getFullYear Sample.tza Sample.now = 2024
   /\ getMonth Sample.tza Sample.now = 5
   /\ getDate Sample.tza Sample.now = 15
   /\ In Sample.may Sample.series /\ In Sample.june Sample.series)
  /\ ~ In Sample.may
       (filterDataByTimeRange Sample.tza "1M" Sample.now Sample.now (Some Sample.series))
  /\ In Sample.june
       (filterDataByTimeRange Sample.tza "1M" Sample.now Sample.now (Some Sample.series)).
Proof.
  assert (Htz : - msPerDay <= Sample.tza <= msPerDay)
    by (unfold msPerDay, Sample.tza; lia).
  assert (HY : getFullYear Sample.tza Sample.now = 2024) by reflexivity.
  assert (HM : getMonth Sample.tza Sample.now = 5) by reflexivity.
  assert (HD : getDate Sample.tza Sample.now = 15) by reflexivity.
  assert (Hmay : In Sample.may Sample.series) by (left; reflexivity).
  assert (Hjune : In Sample.june Sample.series) by (right; left; reflexivity).
  destruct (filterDataByTimeRange_keeps_bars_from_cutoff Sample.tza Sample.now
              Sample.series) as (_ & _ & H).
  destruct (H Htz HY HM HD Sample.may Hmay) as [Hdrop _].
  destruct (H Htz HY HM HD Sample.june Hjune) as [_ Hkeep].
  exact (conj (conj Htz (conj HY (conj HM (conj HD (conj Hmay Hjune)))))
              (conj (Hdrop eq_refl) (Hkeep eq_refl))).
Defined.

(** *** The filter keeps a subsequence *)

Lemma Subsequence_refl {A : Type} (l : list A) : Spec.Subsequence l l.
Proof. induction l; constructor; assumption. Qed.

Lemma Subsequence_filter {A : Type} (f : A -> bool) (l : list A) :
  Spec.Subsequence (filter f l) l.
Proof.
  induction l as [| x l IH]; cbn.
  - constructor.
  - destruct (f x); constructor; assumption.
Qed.

Lemma Subsequence_Forall {A : Type} (P : A -> Prop) (l1 l2 : list A) :
  Spec.Subsequence l1 l2 -> Forall P l2 -> Forall P l1.
Proof.
  induction 1 as [| x l1 l2 _ IH | x l1 l2 _ IH]; intros H.
  - constructor.
  - inversion H; subst. auto.
  - inversion H; subst. constructor; auto.
Qed.

Lemma Subsequence_StronglySorted {A : Type} (R : A -> A -> Prop) (l1 l2 : list A) :
  Spec.Subsequence l1 l2 -> StronglySorted R l2 -> StronglySorted R l1.
Proof.
  induction 1 as [| x l1 l2 Hsub IH | x l1 l2 Hsub IH]; intros H.
  - constructor.
  - inversion H; subst. auto.
  - inversion H; subst. constructor; [auto |].
    eapply Subsequence_Forall; eassumption.
Qed.

Lemma datedBefore_transitive tza : Transitive (Spec.datedBefore tza).
Proof.
  intros a b c. unfold Spec.datedBefore.
  destruct (DateParse.parse tza (date a)), (DateParse.parse tza (date b)),
    (DateParse.parse tza (date c)); intros; try contradiction; lia.
Qed.

Lemma Subsequence_Sorted_datedBefore tza (l1 l2 : list StockData) :
  Spec.Subsequence l1 l2 ->
  Sorted (Spec.datedBefore tza) l2 -> Sorted (Spec.datedBefore tza) l1.
Proof.
  intros Hsub H. apply StronglySorted_Sorted.
  apply (Subsequence_StronglySorted _ _ _ Hsub).
  apply Sorted_StronglySorted; [apply datedBefore_transitive | assumption].
Qed.

Lemma filterDataByTimeRange_Subsequence tza timeRange now cutoffDate data :
  Spec.Subsequence (filterDataByTimeRange tza timeRange now cutoffDate (Some data)) data.
Proof.
  unfold filterDataByTimeRange.
  destruct (cutoff tza timeRange now cutoffDate).
  - apply Subsequence_filter.
  - apply Subsequence_refl.
Qed.

(** C10. Whatever the time range and the clock, the output of the range
    filter is a subsequence of its input (the retained bars unchanged and
    in their order), a series strictly ascending by date stays so, and
    the range ALL returns the input itself. *)
Theorem filterDataByTimeRange_subsequence :
  forall (tza : Z) (timeRange : string) (now cutoffDate : Z) (data : list StockData),
    Spec.Subsequence (filterDataByTimeRange tza timeRange now cutoffDate (Some data)) data
    /\ (Sorted (Spec.datedBefore tza) data ->
        Sorted (Spec.datedBefore tza)
               (filterDataByTimeRange tza timeRange now cutoffDate (Some data)))
    /\ (timeRange = "ALL"%string ->
        filterDataByTimeRange tza timeRange now cutoffDate (Some data) = data).
Proof.
  intros tza timeRange now cutoffDate data.
  pose proof (filterDataByTimeRange_Subsequence tza timeRange now cutoffDate data) as Hsub.
  split; [exact Hsub | split].
  - intros H. exact (Subsequence_Sorted_datedBefore tza _ _ Hsub H).
  - intros ->. reflexivity.
Qed.

Lemma series_ascending : Sorted (Spec.datedBefore Sample.tza) Sample.series.
Proof.
  assert (H : Spec.datedBefore Sample.tza Sample.may Sample.june).
  { unfold Spec.datedBefore.
    change (date Sample.may) with "2024-05-01"%string.
    change (date Sample.june) with "2024-06-01"%string.
    rewrite parse_2024_05_01, parse_2024_06_01. unfold msPerDay. lia. }
  unfold Sample.series.
  apply Sorted_cons; [apply Sorted_cons; [apply Sorted_nil | apply HdRel_nil] |].
  apply HdRel_cons. exact H.
Defined.

Lemma filterDataByTimeRange_subsequence_witness :
  Sorted (Spec.datedBefore Sample.tza) Sample.series
  /\ Sorted (Spec.datedBefore Sample.tza)
            (filterDataByTimeRange Sample.tza "1M" Sample.now Sample.now
                                   (Some Sample.series))
  /\ filterDataByTimeRange Sample.tza "ALL" Sample.now Sample.now (Some Sample.series)
     = Sample.series.
Proof.
  destruct (filterDataByTimeRange_subsequence Sample.tza "1M" Sample.now Sample.now
              Sample.series) as (_ & Hsorted & _).
  destruct (filterDataByTimeRange_subsequence Sample.tza "ALL" Sample.now Sample.now
              Sample.series) as (_ & _ & Hall).
  exact (conj series_ascending (conj (Hsorted series_ascending) (Hall eq_refl))).
Defined.

(** *** The percent change *)

Lemma calculateChange_short (bars : list StockData) :
  (List.length bars < 2)%nat -> calculateChange (Some bars) = 0%Q.
Proof.
  intros H. unfold calculateChange.
  destruct (Nat.ltb_spec (List.length bars) 2); [reflexivity | lia].
Qed.

Lemma calculateChange_formula (bars : list StockData) (first last : StockData) :
  (2 <= List.length bars)%nat ->
  ~ (close first == 0)%Q ->
  nth_error bars 0 = Some first ->
  nth_error bars (List.length bars - 1) = Some last ->
  calculateChange (Some bars)
  = ((close last - close first) / close first * 100)%Q.
Proof.
  intros H _ Hfirst Hlast. unfold calculateChange.
  destruct (Nat.ltb_spec (List.length bars) 2); [lia |].
  now rewrite Hfirst, Hlast.
Qed.

Lemma calculateChange_100_110 (a b : StockData) :
  close a = 100%Q -> close b = 110%Q ->
  (calculateChange (Some [a; b]) == 10)%Q.
Proof. intros Ha Hb. cbn. rewrite Ha, Hb. reflexivity. Qed.

(** C1. The percent change is computed on the fetched series, not on the
    filtered one: with the two sample bars and the range 1M on 15 June
    2024 the filtered series has a single bar, and the change shown is 10
    per cent, not 0. *)
Theorem change_ignores_the_range_filter :
  filteredData Sample.tza (Some Sample.series) "1M" Sample.now Sample.now
  = [Sample.june]
  /\ (change (Some Sample.series) == 10)%Q
  /\ ~ (change (Some Sample.series) == 0)%Q.
Proof.
  split; [| split].
  - vm_compute. reflexivity.
  - vm_compute. reflexivity.
  - vm_compute. discriminate.
Qed.

End HomeFacts.

(** ** The fetcher *)

Module FetcherFacts.
Import Home.

Section Fetcher.
Variable parseFloat : option JSON -> Q.
Variable numberToString : Q -> string.







Lemma toBar_not_null (key : string) (values : JSON) :
  values <> JNull ->
  exists bar, toBar parseFloat (key, values) = inr bar /\ date bar = key.
Proof.
  intros H. unfold toBar.
  destruct values; try contradiction; cbn [JS.prop]; eexists; split; reflexivity.
Qed.

Lemma mapBars_not_null (series : list (string * JSON)) :
  Forall (fun entry => snd entry <> JNull) series ->
  exists bars, mapBars parseFloat series = inr bars
               /\ map (fun bar => date bar) bars = map fst series.
Proof.
  induction 1 as [| [key values] series Hnull _ (bars & IH & Hdates)].
  - exists []. split; reflexivity.
  - destruct (toBar_not_null key values Hnull) as (bar & Hbar & Hdate).
    exists (bar :: bars). cbn [mapBars]. rewrite Hbar, IH. split; [reflexivity |].
    cbn. now rewrite Hdate, Hdates.
Qed.

(** Without a truthy error or note, a time series that is an object with
    no [null] entry is returned oldest bar first. *)
Lemma fetcher_success data key series :
  JS.truthy (JS.lookup "Error Message" data) = false ->
  JS.truthy (JS.lookup "Note" data) = false ->
  find (fun key => JS.includes "Time Series" key) (JS.keys data) = Some key ->
  JS.lookup key data = Some (JObject series) ->
  Forall (fun entry => snd entry <> JNull) series ->
  exists bars, fetcher parseFloat numberToString data = inr bars
               /\ map (fun bar => date bar) bars = rev (map fst series).
Proof.
  intros H1 H2 Hkey Hseries Hnull. unfold fetcher.
  rewrite H1, H2, Hkey, Hseries. cbn [JS.truthy negb JS.entries].
  destruct (mapBars_not_null series Hnull) as (bars & -> & Hdates).
  exists (rev bars). split; [reflexivity |].
  rewrite map_rev. f_equal. exact Hdates.
Qed.


End Fetcher.

End FetcherFacts.

Module FetcherExamples.
Import Home.





End FetcherExamples.

(** ** The d3 helpers *)

Module D3Facts.
Import D3.

Lemma at_Some {A : Type} (a : list A) (i : Z) :
  0 <= i < Z.of_nat (List.length a) -> exists v, JS.at_ a i = Some v.
Proof.
  intros H. unfold JS.at_. destruct (Z.ltb_spec i 0); [lia |].
  destruct (nth_error a (Z.to_nat i)) eqn:E; [eauto |].
  apply nth_error_None in E. lia.
Qed.






(** Below [2 ^ 32] the unsigned shift is the halving of the sum. *)
Lemma mid_half lo hi :
  0 <= lo -> lo < hi -> lo + hi < 2 ^ 32 -> lo <= mid lo hi < hi.
Proof.
  intros H0 H1 H2. unfold mid.
  rewrite Z.mod_small by lia. rewrite Z.shiftr_div_pow2 by lia.
  change (2 ^ 1) with 2. split.
  - apply Z.div_le_lower_bound; lia.
  - apply Z.div_lt_upper_bound; lia.
Qed.



(** An invalid date selects the end of the array. *)
Lemma bisectLeft_invalid (a : list (option Z)) :
  a <> [] -> bisectLeft a None 1 = Done (Z.of_nat (List.length a)).
Proof.
  intros Hne. unfold bisectLeft.
  assert (1 <= Z.of_nat (List.length a)) by (destruct a; [congruence | cbn; lia]).
  destruct (Z.ltb_spec 1 (Z.of_nat (List.length a))); [reflexivity |].
  f_equal. lia.
Qed.

(** *** Extrema *)

(** [d3.extent] passes over the values that are not dates and returns the
    least and the greatest of the others. *)
Lemma extent_bounds {A : Type} (f : A -> option Z) (l : list A) (lo0 hi0 : Z) :
  exists lo hi,
    fold_left (fun (acc : option (Z * Z)) (d : A) =>
                 match f d with
                 | None => acc
                 | Some value =>
                     match acc with
                     | None => Some (value, value)
                     | Some (min, max) =>
                         Some (if (value <? min)%Z then value else min,
                               if (max <? value)%Z then value else max)
                     end
                 end) l (Some (lo0, hi0)) = Some (lo, hi)
    /\ (lo = lo0 \/ exists d, In d l /\ f d = Some lo)
    /\ (hi = hi0 \/ exists d, In d l /\ f d = Some hi)
    /\ lo <= lo0 /\ hi0 <= hi
    /\ (forall d t, In d l -> f d = Some t -> lo <= t <= hi).
Proof.
  revert lo0 hi0. induction l as [| a l IH]; intros lo0 hi0; cbn [fold_left].
  - exists lo0, hi0. split; [reflexivity |]. split; [now left |]. split; [now left |].
    split; [lia |]. split; [lia |]. intros d t [].
  - destruct (f a) as [v |] eqn:Ea.
    + destruct (IH (if v <? lo0 then v else lo0) (if hi0 <? v then v else hi0))
        as (lo & hi & E & Hlo & Hhi & B0 & B1 & Hall).
      exists lo, hi. split; [exact E |].
      destruct (Z.ltb_spec v lo0) as [L0 | L0]; destruct (Z.ltb_spec hi0 v) as [L1 | L1];
        (split; [destruct Hlo as [-> | (d & Hd & Ed)];
                   [first [now left | right; exists a; split; [now left | exact Ea]]
                   | right; exists d; split; [now right | exact Ed]] |]);
        (split; [destruct Hhi as [-> | (d & Hd & Ed)];
                   [first [now left | right; exists a; split; [now left | exact Ea]]
                   | right; exists d; split; [now right | exact Ed]] |]);
        (split; [lia |]); (split; [lia |]);
        (intros d t [<- | Hd] Ed; [rewrite Ea in Ed; injection Ed as <-; lia
                                  | now apply (Hall d t)]).
    + destruct (IH lo0 hi0) as (lo & hi & E & Hlo & Hhi & B0 & B1 & Hall).
      exists lo, hi. split; [exact E |].
      split; [destruct Hlo as [-> | (d & Hd & Ed)];
                [now left | right; exists d; split; [now right | exact Ed]] |].
      split; [destruct Hhi as [-> | (d & Hd & Ed)];
                [now left | right; exists d; split; [now right | exact Ed]] |].
      split; [exact B0 |]. split; [exact B1 |].
      intros d t [<- | Hd] Ed; [congruence | now apply (Hall d t)].
Qed.

Lemma extent_spec {A : Type} (f : A -> option Z) (l : list A) :
  (exists d t, In d l /\ f d = Some t) ->
  exists lo hi,
    extent l f = Some (lo, hi)
    /\ (exists d, In d l /\ f d = Some lo)
    /\ (exists d, In d l /\ f d = Some hi)
    /\ (forall d t, In d l -> f d = Some t -> lo <= t <= hi).
Proof.
  unfold extent. induction l as [| a l IH]; intros (d0 & t0 & Hin & E0); [destruct Hin |].
  cbn [fold_left]. destruct (f a) as [v |] eqn:Ea.
  - destruct (extent_bounds f l v v) as (lo & hi & E & Hlo & Hhi & B0 & B1 & Hall).
    exists lo, hi. split; [exact E |].
    split; [destruct Hlo as [-> | (d & Hd & Ed)];
              [exists a; split; [now left | exact Ea]
              | exists d; split; [now right | exact Ed]] |].
    split; [destruct Hhi as [-> | (d & Hd & Ed)];
              [exists a; split; [now left | exact Ea]
              | exists d; split; [now right | exact Ed]] |].
    intros d t [<- | Hd] Ed; [rewrite Ea in Ed; injection Ed as <-; lia
                             | now apply (Hall d t)].
  - destruct Hin as [<- | Hin]; [congruence |].
    destruct (IH (ex_intro _ d0 (ex_intro _ t0 (conj Hin E0))))
      as (lo & hi & E & (dl & Hdl & El) & (dh & Hdh & Eh) & Hall).
    exists lo, hi. split; [exact E |].
    split; [exists dl; split; [now right | exact El] |].
    split; [exists dh; split; [now right | exact Eh] |].
    intros d t [<- | Hd] Ed; [congruence | now apply (Hall d t)].
Qed.

(** Without a single date there is no extent. *)
Lemma extent_none {A : Type} (f : A -> option Z) (l : list A) :
  (forall d, In d l -> f d = None) -> extent l f = None.
Proof.
  unfold extent. induction l as [| a l IH]; intros H; [reflexivity |].
  cbn [fold_left]. rewrite (H a (or_introl eq_refl)).
  apply IH. intros d Hd. apply H. now right.
Qed.

Local Open Scope Q_scope.

Lemma gt_false (m v : Q) : gt m v = false -> m <= v.
Proof. unfold gt. intros H. apply Qle_bool_iff. now destruct (Qle_bool m v). Qed.

Lemma gt_true (m v : Q) : gt m v = true -> v <= m.
Proof.
  unfold gt. intros H. destruct (Qle_bool m v) eqn:E; [discriminate |].
  destruct (Qlt_le_dec v m) as [L | L]; [now apply Qlt_le_weak |].
  apply Qle_bool_iff in L. congruence.
Qed.

Lemma lt_false (m v : Q) : lt m v = false -> v <= m.
Proof. unfold lt. intros H. apply Qle_bool_iff. now destruct (Qle_bool v m). Qed.

Lemma lt_true (m v : Q) : lt m v = true -> m <= v.
Proof.
  unfold lt. intros H. destruct (Qle_bool v m) eqn:E; [discriminate |].
  destruct (Qlt_le_dec m v) as [L | L]; [now apply Qlt_le_weak |].
  apply Qle_bool_iff in L. congruence.
Qed.

Lemma min_from {A : Type} (f : A -> Q) (l : list A) (d0 : A) (m0 : Q) :
  m0 = f d0 ->
  exists m,
    fold_left (fun (min : option Q) (d : A) =>
                 match min with
                 | None => Some (f d)
                 | Some m => if gt m (f d) then Some (f d) else Some m
                 end) l (Some m0) = Some m
    /\ (exists d, In d (d0 :: l) /\ m = f d)
    /\ m <= m0 /\ (forall d, In d l -> m <= f d).
Proof.
  revert d0 m0. induction l as [| a l IH]; intros d0 m0 E; cbn [fold_left].
  - exists m0. split; [reflexivity |]. split; [exists d0; split; [now left | assumption] |].
    split; [apply Qle_refl | intros d []].
  - destruct (gt m0 (f a)) eqn:G.
    + destruct (IH a (f a) eq_refl) as (m & -> & (d & Hd & Hm) & Hle & Hall).
      exists m. split; [reflexivity |]. split; [exists d; split; [now right | assumption] |].
      apply gt_true in G. split; [eapply Qle_trans; eassumption |].
      intros d' [<- | Hd']; [assumption | now apply Hall].
    + destruct (IH d0 m0 E) as (m & -> & (d & Hd & Hm) & Hle & Hall).
      exists m. split; [reflexivity |]. split.
      * exists d. split; [| assumption]. destruct Hd as [<- | Hd]; [now left | now right; right].
      * apply gt_false in G. split; [assumption |].
        intros d' [<- | Hd']; [eapply Qle_trans; eassumption | now apply Hall].
Qed.

Lemma min_spec {A : Type} (f : A -> Q) (l : list A) :
  l <> [] -> exists m, D3.min l f = Some m /\ Spec.isMinimum f l m.
Proof.
  destruct l as [| d0 l]; [congruence | intros _]. unfold D3.min. cbn [fold_left].
  destruct (min_from f l d0 (f d0) eq_refl) as (m & -> & Hin & Hle & Hall).
  exists m. split; [reflexivity |]. split; [assumption |].
  intros d [<- | Hd]; [assumption | now apply Hall].
Qed.

Lemma max_from {A : Type} (f : A -> Q) (l : list A) (d0 : A) (m0 : Q) :
  m0 = f d0 ->
  exists m,
    fold_left (fun (max : option Q) (d : A) =>
                 match max with
                 | None => Some (f d)
                 | Some m => if lt m (f d) then Some (f d) else Some m
                 end) l (Some m0) = Some m
    /\ (exists d, In d (d0 :: l) /\ m = f d)
    /\ m0 <= m /\ (forall d, In d l -> f d <= m).
Proof.
  revert d0 m0. induction l as [| a l IH]; intros d0 m0 E; cbn [fold_left].
  - exists m0. split; [reflexivity |]. split; [exists d0; split; [now left | assumption] |].
    split; [apply Qle_refl | intros d []].
  - destruct (lt m0 (f a)) eqn:G.
    + destruct (IH a (f a) eq_refl) as (m & -> & (d & Hd & Hm) & Hle & Hall).
      exists m. split; [reflexivity |]. split; [exists d; split; [now right | assumption] |].
      apply lt_true in G. split; [eapply Qle_trans; eassumption |].
      intros d' [<- | Hd']; [assumption | now apply Hall].
    + destruct (IH d0 m0 E) as (m & -> & (d & Hd & Hm) & Hle & Hall).
      exists m. split; [reflexivity |]. split.
      * exists d. split; [| assumption]. destruct Hd as [<- | Hd]; [now left | now right; right].
      * apply lt_false in G. split; [assumption |].
        intros d' [<- | Hd']; [eapply Qle_trans; eassumption | now apply Hall].
Qed.

Lemma max_spec {A : Type} (f : A -> Q) (l : list A) :
  l <> [] -> exists m, D3.max l f = Some m /\ Spec.isMaximum f l m.
Proof.
  destruct l as [| d0 l]; [congruence | intros _]. unfold D3.max. cbn [fold_left].
  destruct (max_from f l d0 (f d0) eq_refl) as (m & -> & Hin & Hle & Hall).
  exists m. split; [reflexivity |]. split; [assumption |].
  intros d [<- | Hd]; [assumption | now apply Hall].
Qed.

(** *** Linear scales *)

Lemma normalize_difference (a b v w : Q) :
  ~ b - a == 0 ->
  normalize a b v - normalize a b w == (v - w) / (b - a).
Proof.
  intros H. unfold normalize.
  destruct (Qeq_bool (b - a) 0) eqn:E; [apply Qeq_bool_iff in E; contradiction |].
  field. exact H.
Qed.

Lemma normalize_constant (a b v w : Q) :
  b - a == 0 -> normalize a b v = normalize a b w.
Proof.
  intros H. unfold normalize. apply Qeq_bool_iff in H. now rewrite H.
Qed.

(** A scale maps differences of values to proportional differences of
    coordinates; the factor is [Spec.slope]. *)
Lemma apply_difference (s : Scale) (v w : Q) :
  apply s v - apply s w == (v - w) * Spec.slope s.
Proof.
  unfold apply, bimap, Spec.slope. destruct s as [[d0 d1] [r0 r1]]. cbn [domain range].
  unfold interpolateNumber.
  destruct (Qeq_bool (d1 - d0) 0) eqn:E.
  - apply Qeq_bool_iff in E.
    assert (E' : d0 - d1 == 0) by (rewrite <- (Qplus_opp_r d0); lra).
    destruct (lt d1 d0).
    + rewrite (normalize_constant d1 d0 v w E'). ring.
    + rewrite (normalize_constant d0 d1 v w E). ring.
  - assert (N : ~ d1 - d0 == 0).
    { intros H. apply Qeq_bool_iff in H. congruence. }
    assert (N' : ~ d0 - d1 == 0) by (intros H; apply N; lra).
    destruct (lt d1 d0).
    + transitivity ((r0 - r1) * (normalize d1 d0 v - normalize d1 d0 w)); [ring |].
      rewrite (normalize_difference d1 d0 v w N'). field. split; assumption.
    + transitivity ((r1 - r0) * (normalize d0 d1 v - normalize d0 d1 w)); [ring |].
      rewrite (normalize_difference d0 d1 v w N). field. assumption.
Qed.

End D3Facts.

(** ** Scales, extents and the bisection *)

Module ScaleFacts.
Import D3 D3Facts.

(** Without any order on the dates, and whether or not they are dates,
    the bisection ends on an index within its bounds. *)
Lemma bisectLoop_bounds (a : list (option Z)) (x : Z) :
  2 * Z.of_nat (List.length a) < 2 ^ 32 ->
  forall (fuel : nat) (lo hi : Z),
    0 <= lo -> lo < hi -> hi <= Z.of_nat (List.length a) ->
    hi - lo <= Z.of_nat fuel ->
    exists i, bisectLoop fuel a x lo hi = Done i /\ lo <= i <= hi.
Proof.
  intros Hlen. induction fuel as [| fuel IH]; intros lo hi H0 H1 H2 Hfuel.
  - lia.
  - cbn [bisectLoop].
    destruct (mid_half lo hi H0 H1 ltac:(lia)) as [Hm1 Hm2].
    set (m := mid lo hi) in *.
    destruct (at_Some a m ltac:(lia)) as (v & Hv). rewrite Hv.
    destruct (before v x).
    + destruct (Z.ltb_spec (m + 1) hi) as [Hlt | Hge].
      * destruct (IH (m + 1) hi ltac:(lia) Hlt H2 ltac:(lia)) as (i & -> & Hi).
        exists i. split; [reflexivity | lia].
      * exists (m + 1). split; [reflexivity | lia].
    + destruct (Z.ltb_spec lo m) as [Hlt | Hge].
      * destruct (IH lo m H0 Hlt ltac:(lia) ltac:(lia)) as (i & -> & Hi).
        exists i. split; [reflexivity | lia].
      * exists lo. split; [reflexivity | lia].
Qed.

Lemma bisectLeft_bounds (a : list (option Z)) (x : option Z) :
  a <> [] -> 2 * Z.of_nat (List.length a) < 2 ^ 32 ->
  exists i, bisectLeft a x 1 = Done i /\ 1 <= i <= Z.of_nat (List.length a).
Proof.
  intros Hne Hlen. destruct x as [x |].
  - unfold bisectLeft.
    assert (1 <= Z.of_nat (List.length a)) by (destruct a; [congruence | cbn; lia]).
    destruct (Z.ltb_spec 1 (Z.of_nat (List.length a))) as [Hlt | Hge].
    + destruct (bisectLoop_bounds a x Hlen (List.length a) 1 (Z.of_nat (List.length a))
                  ltac:(lia) Hlt ltac:(lia) ltac:(lia)) as (i & -> & Hi).
      exists i. split; [reflexivity | lia].
    + exists 1. split; [reflexivity | lia].
  - rewrite (bisectLeft_invalid a Hne).
    assert (1 <= Z.of_nat (List.length a)) by (destruct a; [congruence | cbn; lia]).
    eexists. split; [reflexivity | lia].
Qed.

Lemma at_In {A : Type} (a : list A) (i : Z) (v : A) : JS.at_ a i = Some v -> In v a.
Proof.
  unfold JS.at_. destruct (i <? 0); [discriminate |]. apply nth_error_In.
Qed.




Local Open Scope Q_scope.

(** A scale over a domain that is not a single point is the line through
    the two points (domain, range). *)
Lemma apply_line (d0 d1 r0 r1 v : Q) :
  ~ d1 - d0 == 0 ->
  apply {| domain := (d0, d1); range := (r0, r1) |} v
  == r0 + (v - d0) * ((r1 - r0) / (d1 - d0)).
Proof.
  intros N. unfold apply, bimap. cbn [domain range].
  unfold interpolateNumber, normalize.
  assert (N' : ~ d0 - d1 == 0) by (intros H; apply N; lra).
  destruct (lt d1 d0).
  - destruct (Qeq_bool (d0 - d1) 0) eqn:E; [apply Qeq_bool_iff in E; contradiction |].
    field. split; assumption.
  - destruct (Qeq_bool (d1 - d0) 0) eqn:E; [apply Qeq_bool_iff in E; contradiction |].
    field. assumption.
Qed.

(** Over a domain of a single point the scale is constant, halfway
    between the ends of its range. *)
Lemma apply_point (d0 d1 r0 r1 v : Q) :
  d1 - d0 == 0 ->
  apply {| domain := (d0, d1); range := (r0, r1) |} v == (r0 + r1) / 2.
Proof.
  intros E. unfold apply, bimap. cbn [domain range].
  unfold interpolateNumber, normalize.
  assert (E' : d0 - d1 == 0) by lra.
  apply Qeq_bool_iff in E, E'. rewrite E, E'.
  destruct (lt d1 d0); field.
Qed.

Lemma quotient_nonnegative (a b : Q) : 0 <= a -> 0 < b -> 0 <= a / b.
Proof.
  intros Ha Hb. unfold Qdiv. apply Qmult_le_0_compat; [exact Ha |].
  apply Qlt_le_weak. now apply Qinv_lt_0_compat.
Qed.

(** A scale with ascending domain and ascending range rises and stays
    within its range over its domain. *)
Lemma apply_rising (d0 d1 r0 r1 : Q) :
  d0 <= d1 -> r0 <= r1 ->
  (forall v w, v <= w ->
     apply {| domain := (d0, d1); range := (r0, r1) |} v
     <= apply {| domain := (d0, d1); range := (r0, r1) |} w)
  /\ (forall v, d0 <= v <= d1 ->
        r0 <= apply {| domain := (d0, d1); range := (r0, r1) |} v <= r1).
Proof.
  intros Hd Hr.
  destruct (Qeq_dec (d1 - d0) 0) as [E | N].
  - split.
    + intros v w _. rewrite !apply_point by exact E. apply Qle_refl.
    + intros v _. rewrite apply_point by exact E.
      setoid_replace ((r0 + r1) / 2) with ((r0 + r1) * (1 # 2)) by field. lra.
  - assert (P : 0 < d1 - d0) by lra.
    pose proof (quotient_nonnegative (r1 - r0) (d1 - d0) ltac:(lra) P) as K.
    assert (K1 : (d1 - d0) * ((r1 - r0) / (d1 - d0)) == r1 - r0) by (field; exact N).
    remember ((r1 - r0) / (d1 - d0)) as k eqn:Ek.
    split.
    + intros v w Hvw. rewrite !apply_line by exact N. rewrite <- Ek.
      assert (0 <= (w - v) * k) by (apply Qmult_le_0_compat; lra).
      assert ((w - d0) * k == (v - d0) * k + (w - v) * k) by ring.
      lra.
    + intros v Hv. rewrite apply_line by exact N. rewrite <- Ek.
      assert (0 <= (v - d0) * k) by (apply Qmult_le_0_compat; lra).
      assert (0 <= (d1 - v) * k) by (apply Qmult_le_0_compat; lra).
      assert ((d1 - d0) * k == (v - d0) * k + (d1 - v) * k) by ring.
      lra.
Qed.

(** With a descending range it falls. *)
Lemma apply_falling (d0 d1 r0 r1 : Q) :
  d0 <= d1 -> r1 <= r0 ->
  (forall v w, v <= w ->
     apply {| domain := (d0, d1); range := (r0, r1) |} w
     <= apply {| domain := (d0, d1); range := (r0, r1) |} v)
  /\ (forall v, d0 <= v <= d1 ->
        r1 <= apply {| domain := (d0, d1); range := (r0, r1) |} v <= r0).
Proof.
  intros Hd Hr.
  destruct (Qeq_dec (d1 - d0) 0) as [E | N].
  - split.
    + intros v w _. rewrite !apply_point by exact E. apply Qle_refl.
    + intros v _. rewrite apply_point by exact E.
      setoid_replace ((r0 + r1) / 2) with ((r0 + r1) * (1 # 2)) by field. lra.
  - assert (P : 0 < d1 - d0) by lra.
    pose proof (quotient_nonnegative (r0 - r1) (d1 - d0) ltac:(lra) P) as K.
    assert (K1 : (d1 - d0) * ((r1 - r0) / (d1 - d0)) == r1 - r0) by (field; exact N).
    assert (K2 : (r0 - r1) / (d1 - d0) == - ((r1 - r0) / (d1 - d0))) by (field; exact N).
    rewrite K2 in K. clear K2.
    remember ((r1 - r0) / (d1 - d0)) as k eqn:Ek.
    split.
    + intros v w Hvw. rewrite !apply_line by exact N. rewrite <- Ek.
      assert (0 <= (w - v) * - k) by (apply Qmult_le_0_compat; lra).
      assert ((w - d0) * k == (v - d0) * k - (w - v) * - k) by ring.
      lra.
    + intros v Hv. rewrite apply_line by exact N. rewrite <- Ek.
      assert (0 <= (v - d0) * - k) by (apply Qmult_le_0_compat; lra).
      assert (0 <= (d1 - v) * - k) by (apply Qmult_le_0_compat; lra).
      assert ((d1 - d0) * k == - ((v - d0) * - k) - (d1 - v) * - k) by ring.
      assert ((v - d0) * k == - ((v - d0) * - k)) by ring.
      lra.
Qed.








End ScaleFacts.

(** ** The chart renderer *)

Module StockChartFacts.
Import D3 D3Facts ScaleFacts StockChart.
Local Open Scope Q_scope.

Section Render.
Variable parseDate : string -> option Z.
Variable data : list StockData.

Lemma formattedData_length :
  List.length (formattedData parseDate data) = List.length data.
Proof. apply length_map. Qed.

Lemma formattedData_nonempty : data <> [] -> formattedData parseDate data <> [].
Proof. destruct data; [congruence | discriminate]. Qed.

Lemma first_and_last :
  data <> [] ->
  exists first last,
    nth_error (formattedData parseDate data) 0 = Some first
    /\ nth_error (formattedData parseDate data)
                 (List.length (formattedData parseDate data) - 1) = Some last.
Proof.
  intros H. apply formattedData_nonempty in H.
  destruct (formattedData parseDate data) as [| first rest] eqn:E; [congruence |].
  destruct (nth_error (first :: rest) (List.length (first :: rest) - 1)) as [last |] eqn:L.
  - exists first, last. split; reflexivity.
  - apply nth_error_None in L. cbn in L. lia.
Qed.

Lemma chartColor_defined :
  data <> [] -> exists color, chartColor parseDate data = Some color.
Proof.
  intros H. destruct (first_and_last H) as (first & last & Hfirst & Hlast).
  unfold chartColor, priceChange. rewrite Hfirst, Hlast. eauto.
Qed.

(** The horizontal scale when some date string was parsed: its domain
    runs from the earliest to the latest of the parsed dates. *)
Lemma x_scale (width : Q) :
  (exists d t, In d (formattedData parseDate data) /\ date d = Some t) ->
  exists earliest latest : Z,
    x parseDate data width
    = Some {| domain := (inject_Z earliest, inject_Z latest);
              range := (0, innerWidth width) |}
    /\ (exists d, In d (formattedData parseDate data) /\ date d = Some earliest)
    /\ (exists d, In d (formattedData parseDate data) /\ date d = Some latest)
    /\ forall d t, In d (formattedData parseDate data) -> date d = Some t ->
         (earliest <= t <= latest)%Z.
Proof.
  intros H. unfold x.
  destruct (extent_spec (fun d : Bar (option Z) => date d) _ H)
    as (lo & hi & -> & Hlo & Hhi & Hall).
  exists lo, hi. auto.
Qed.

(** When no date string was parsed the scale has no domain. *)
Lemma x_undefined (width : Q) :
  (forall d, In d (formattedData parseDate data) -> date d = None) ->
  x parseDate data width = None.
Proof.
  intros H. unfold x.
  now rewrite (extent_none (fun d : Bar (option Z) => date d) _ H).
Qed.

(** The vertical scale of a non-empty series. *)
Lemma y_defined (height : Q) :
  data <> [] ->
  exists lowest highest,
    y parseDate data height
    = Some {| domain := (lowest * (995 # 1000), highest * (1005 # 1000));
              range := (innerHeight height, 0) |}
    /\ Spec.isMinimum (fun d : Bar (option Z) => Qmin (low d) (close d))
                      (formattedData parseDate data) lowest
    /\ Spec.isMaximum (fun d : Bar (option Z) => Qmax (high d) (close d))
                      (formattedData parseDate data) highest.
Proof.
  intros H. apply formattedData_nonempty in H. unfold y.
  destruct (min_spec (fun d : Bar (option Z) => Qmin (low d) (close d)) _ H)
    as (lowest & -> & Hmin).
  destruct (max_spec (fun d : Bar (option Z) => Qmax (high d) (close d)) _ H)
    as (highest & -> & Hmax).
  exists lowest, highest. auto.
Qed.

(** In candlestick mode a non-empty series is drawn as one candle per
    bar, in the order of the bars, whether or not its dates were parsed. *)
Lemma draw_candlesticks (width height : Q) :
  data <> [] ->
  exists yScale,
    y parseDate data height = Some yScale
    /\ draw parseDate data true width height
       = Some (Candlesticks
                 (map (candlestick parseDate data width
                                   (x parseDate data width) yScale)
                      (formattedData parseDate data))).
Proof.
  intros H.
  destruct (y_defined height H) as (lowest & highest & Hy & _).
  destruct (chartColor_defined H) as (color & Hcolor).
  eexists. split; [exact Hy |].
  unfold draw. destruct data; [congruence |].
  cbn [List.length Nat.eqb]. rewrite Hcolor, Hy. reflexivity.
Qed.

(** C5. For a non-empty series the domain of the vertical scale is the
    least [min(low, close)] times 0.995 and the greatest
    [max(high, close)] times 1.005, its range is [inner height, 0], and
    so the lower bound lies at or below every bar's [min(low, close)]
    times 0.995, the upper bound at or above every bar's
    [max(high, close)] times 1.005. *)
Theorem y_domain :
  forall height : Q,
    data <> [] ->
    exists lowest highest,
      y parseDate data height
      = Some {| domain := (lowest * (995 # 1000), highest * (1005 # 1000));
                range := (innerHeight height, 0) |}
      /\ Spec.isMinimum (fun d : Bar (option Z) => Qmin (low d) (close d))
                        (formattedData parseDate data) lowest
      /\ Spec.isMaximum (fun d : Bar (option Z) => Qmax (high d) (close d))
                        (formattedData parseDate data) highest
      /\ forall d, In d (formattedData parseDate data) ->
           lowest * (995 # 1000) <= Qmin (low d) (close d) * (995 # 1000)
           /\ Qmax (high d) (close d) * (1005 # 1000) <= highest * (1005 # 1000).
Proof.
  intros height H.
  destruct (y_defined height H) as (lowest & highest & Hy & Hmin & Hmax).
  exists lowest, highest. repeat split; try assumption.
  - destruct Hmin; assumption.
  - destruct Hmin; assumption.
  - destruct Hmax; assumption.
  - destruct Hmax; assumption.
  - apply Qmult_le_compat_r; [| discriminate]. destruct Hmin as [_ Hmin]. now apply Hmin.
  - apply Qmult_le_compat_r; [| discriminate]. destruct Hmax as [_ Hmax]. now apply Hmax.
Qed.

(** C7. For a non-empty series and a positive inner width the candle
    width is the smaller of 0.8 times the share of a bar in the inner
    width and 15, hence at most either. *)
Theorem candlestickWidth_capped :
  forall width : Q,
    data <> [] -> 0 < innerWidth width ->
    candlestickWidth parseDate data width
    = Qmin (innerWidth width / inject_Z (Z.of_nat (List.length data)) * (8 # 10)) 15
    /\ candlestickWidth parseDate data width <= 15
    /\ candlestickWidth parseDate data width
       <= (8 # 10) * (innerWidth width / inject_Z (Z.of_nat (List.length data))).
Proof.
  intros width _ _. unfold candlestickWidth. rewrite formattedData_length.
  split; [reflexivity |]. split.
  - apply Q.le_min_r.
  - rewrite Qmult_comm. apply Q.le_min_l.
Qed.

Lemma candlestick_at (width : Q) (xScale : option Scale) (yScale : Scale)
      (k : nat) (d : Bar (option Z)) :
  nth_error (formattedData parseDate data) k = Some d ->
  nth_error (map (candlestick parseDate data width xScale yScale)
                 (formattedData parseDate data)) k
  = Some (candlestick parseDate data width xScale yScale d).
Proof. intros H. rewrite nth_error_map, H. reflexivity. Qed.


Lemma colour_up (isUp : bool) :
  (if isUp then upColor else downColor) = upColor <-> isUp = true.
Proof. destruct isUp; split; (reflexivity || discriminate). Qed.

Lemma colour_down (isUp : bool) :
  (if isUp then upColor else downColor) = downColor <-> isUp <> true.
Proof. destruct isUp; split; (congruence || discriminate). Qed.

(** C8. The colour of the chart is the up colour exactly when the close
    of the last bar minus the close of the first is not negative, and
    the down colour otherwise; it is the colour of the line chart.  In
    candlestick mode the wick and the body of a candle have one colour,
    up exactly when that bar closed at or above its open. *)
Theorem chart_colours :
  forall width height : Q,
    data <> [] ->
    exists first last candles,
      nth_error (formattedData parseDate data) 0 = Some first
      /\ nth_error (formattedData parseDate data)
                   (List.length (formattedData parseDate data) - 1) = Some last
      /\ (chartColor parseDate data = Some upColor
          <-> 0 <= close last - close first)
      /\ (chartColor parseDate data = Some downColor
          <-> ~ 0 <= close last - close first)
      /\ (forall gradient color area line,
             draw parseDate data false width height
             = Some (AreaLine gradient color area line) ->
             chartColor parseDate data = Some color)
      /\ draw parseDate data true width height = Some (Candlesticks candles)
      /\ forall k d,
           nth_error (formattedData parseDate data) k = Some d ->
           exists c,
             nth_error candles k = Some c
             /\ stroke (wick c) = fill (body c)
             /\ (stroke (wick c) = upColor <-> open d <= close d)
             /\ (stroke (wick c) = downColor <-> ~ open d <= close d).
Proof.
  intros width height H.
  destruct (first_and_last H) as (first & last & Hfirst & Hlast).
  destruct (draw_candlesticks width height H) as (yScale & Hy & Hdraw).
  exists first, last. eexists.
  split; [exact Hfirst |]. split; [exact Hlast |].
  assert (Hcolor : chartColor parseDate data
                   = Some (if Qle_bool 0 (close last - close first)
                           then upColor else downColor)).
  { unfold chartColor, priceChange. now rewrite Hfirst, Hlast. }
  split; [| split; [| split; [| split; [exact Hdraw |]]]].
  - rewrite Hcolor, <- Qle_bool_iff, <- colour_up.
    split; [now intros [= ->] | now intros ->].
  - rewrite Hcolor, <- Qle_bool_iff, <- colour_down.
    split; [now intros [= ->] | now intros ->].
  - intros gradient color area line. unfold draw.
    destruct (List.length data =? 0)%nat; [discriminate |].
    destruct (chartColor parseDate data) as [c |]; [| discriminate].
    rewrite Hy. unfold glyphs. cbn [negb].
    repeat match goal with
      | |- context [match ?e with Some _ => _ | None => _ end] => destruct e
      end; try discriminate.
    now intros [= _ -> _ _].
  - intros k d Hd. eexists. split; [apply (candlestick_at _ _ _ _ _ Hd) |].
    cbn [candlestick wick body stroke fill].
    split; [reflexivity |]. rewrite <- Qle_bool_iff. split.
    + apply colour_up.
    + apply colour_down.
Qed.



End Render.

End StockChartFacts.

Module StockChartExamples.
Import D3 StockChart StockChartFacts.
Local Open Scope Q_scope.

Lemma series_not_empty : Sample.series <> [].
Proof. discriminate. Defined.




Lemma innerWidth_positive : 0 < innerWidth 800.
Proof. reflexivity. Defined.



(** A pointer halfway between the two sample bars, one exactly on the
    second bar and one left of the plot all show the first bar; right of
    the second bar the second bar is shown. *)
Lemma tooltip_examples :
  mousemove Sample.parseDate Sample.series (Some Sample.xScale) 355
  = Done Sample.mayBar
  /\ mousemove Sample.parseDate Sample.series (Some Sample.xScale) 710
     = Done Sample.mayBar
  /\ mousemove Sample.parseDate Sample.series (Some Sample.xScale) 711
     = Done Sample.juneBar
  /\ mousemove Sample.parseDate Sample.series (Some Sample.xScale) (-5)
     = Done Sample.mayBar.
Proof. repeat split; vm_compute; reflexivity. Qed.

Lemma y_domain_witness :
  Sample.series <> []
  /\ exists lowest highest,
       y Sample.parseDate Sample.series 400
       = Some {| domain := (lowest * (995 # 1000), highest * (1005 # 1000));
                 range := (innerHeight 400, 0) |}
       /\ forall d, In d (formattedData Sample.parseDate Sample.series) ->
            lowest * (995 # 1000) <= Qmin (low d) (close d) * (995 # 1000)
            /\ Qmax (high d) (close d) * (1005 # 1000) <= highest * (1005 # 1000).
Proof.
  destruct (y_domain Sample.parseDate Sample.series 400 series_not_empty)
    as (lowest & highest & Hy & _ & _ & Hbounds).
  split; [exact series_not_empty |].
  exists lowest, highest. exact (conj Hy Hbounds).
Defined.



Lemma candlestickWidth_capped_witness :
  (Sample.series <> [] /\ 0 < innerWidth 800)
  /\ candlestickWidth Sample.parseDate Sample.series 800 <= 15
  /\ candlestickWidth Sample.parseDate Sample.series 800
     <= (8 # 10) * (innerWidth 800 / inject_Z (Z.of_nat (List.length Sample.series))).
Proof.
  destruct (candlestickWidth_capped Sample.parseDate Sample.series 800
              series_not_empty innerWidth_positive) as (_ & Hcap & Hshare).
  exact (conj (conj series_not_empty innerWidth_positive) (conj Hcap Hshare)).
Defined.

Lemma chart_colours_witness :
  Sample.series <> []
  /\ exists first last,
       nth_error (formattedData Sample.parseDate Sample.series) 0 = Some first
       /\ nth_error (formattedData Sample.parseDate Sample.series)
                    (List.length (formattedData Sample.parseDate Sample.series) - 1)
          = Some last
       /\ (chartColor Sample.parseDate Sample.series = Some upColor
           <-> 0 <= close last - close first).
Proof.
  destruct (chart_colours Sample.parseDate Sample.series 800 400 series_not_empty)
    as (first & last & candles & Hfirst & Hlast & Hup & _).
  split; [exact series_not_empty |].
  exists first, last. exact (conj Hfirst (conj Hlast Hup)).
Defined.

End StockChartExamples.

(** ** The look-back of the range filter on the calendar *)

Module LookBackFacts.
Import JSDate JSDateFacts Home HomeFacts.

Lemma monthStart_step leap m :
  0 <= m <= 10 ->
  monthStart leap (m + 1) = monthStart leap m + Spec.daysInMonth leap m.
Proof. intros H. month_cases m; destruct leap; reflexivity || lia. Qed.

Lemma daysInMonth_range leap m : 28 <= Spec.daysInMonth leap m <= 31.
Proof.
  unfold Spec.daysInMonth.
  destruct (m =? 1); [destruct leap; lia |].
  destruct ((m =? 3) || (m =? 5) || (m =? 8) || (m =? 10)); lia.
Qed.

(** The first day of a month lies a month's length after the first day of
    the month before. *)
Lemma dayOfMonths_succ months d :
  Spec.dayOfMonths (months + 1) d
  = Spec.dayOfMonths months d
    + Spec.daysInMonth (isLeapYear (months / 12)) (months mod 12).
Proof.
  unfold Spec.dayOfMonths.
  pose proof (mod_12_range months) as R. pose proof (div_mod_12 months) as E.
  destruct (Z.eq_dec (months mod 12) 11) as [E11 | N11].
  - assert (Q : (months + 1) / 12 = months / 12 + 1)
      by (symmetry; apply (Z.div_unique _ _ _ 0); lia).
    assert (M : (months + 1) mod 12 = 0)
      by (symmetry; apply (Z.mod_unique _ _ (months / 12 + 1)); lia).
    rewrite Q, M, E11, DayFromYear_succ. unfold DaysInYear.
    generalize (isLeapYear (months / 12 + 1)). intros leap'.
    destruct (isLeapYear (months / 12)); destruct leap'; cbn; lia.
  - assert (Q : (months + 1) / 12 = months / 12)
      by (symmetry; apply (Z.div_unique _ _ _ (months mod 12 + 1)); lia).
    assert (M : (months + 1) mod 12 = months mod 12 + 1)
      by (symmetry; apply (Z.mod_unique _ _ (months / 12)); lia).
    rewrite Q, M, monthStart_step by lia. ring.
Qed.

Lemma dayOfMonths_back (k : nat) months d :
  28 * Z.of_nat k
  <= Spec.dayOfMonths months d - Spec.dayOfMonths (months - Z.of_nat k) d
  <= 31 * Z.of_nat k.
Proof.
  induction k as [| k IH].
  - replace (months - Z.of_nat 0) with months by (cbn; lia). cbn. lia.
  - pose proof (dayOfMonths_succ (months - Z.of_nat (S k)) d) as Step.
    replace (months - Z.of_nat (S k) + 1) with (months - Z.of_nat k) in Step by lia.
    pose proof (daysInMonth_range (isLeapYear ((months - Z.of_nat (S k)) / 12))
                                  ((months - Z.of_nat (S k)) mod 12)) as R.
    revert IH Step R.
    generalize (Spec.daysInMonth (isLeapYear ((months - Z.of_nat (S k)) / 12))
                                 ((months - Z.of_nat (S k)) mod 12)).
    generalize (Spec.dayOfMonths (months - Z.of_nat (S k)) d).
    generalize (Spec.dayOfMonths (months - Z.of_nat k) d).
    generalize (Spec.dayOfMonths months d). intros. lia.
Qed.

(** The days between a day of a month and the same day of an earlier
    month. *)
Lemma dayOfMonths_between earlier later d :
  earlier <= later ->
  28 * (later - earlier)
  <= Spec.dayOfMonths later d - Spec.dayOfMonths earlier d
  <= 31 * (later - earlier).
Proof.
  intros H. pose proof (dayOfMonths_back (Z.to_nat (later - earlier)) later d) as B.
  rewrite Z2Nat.id in B by lia.
  replace (later - (later - earlier)) with earlier in B by lia. exact B.
Qed.

(** A time value in terms of its local calendar fields. *)
Lemma time_of_fields tza t :
  t = Spec.dayOfMonths (12 * getFullYear tza t + getMonth tza t) (getDate tza t)
      * msPerDay + TimeWithinDay (LocalTime tza t) - tza.
Proof.
  rewrite <- MakeDay_dayOfMonths.
  rewrite getFullYear_unfold, getMonth_unfold, getDate_unfold.
  rewrite MakeDay_fields.
  pose proof (MakeDate_Day_TimeWithinDay (LocalTime tza t)) as M.
  unfold MakeDate in M. rewrite M. unfold LocalTime. lia.
Qed.


Lemma monthsBefore_earlier tza n now :
  Spec.monthsBefore tza n now
  = TimeClip (now - (Spec.dayOfMonths (12 * getFullYear tza now + getMonth tza now)
                                       (getDate tza now)
                     - Spec.dayOfMonths (12 * getFullYear tza now + getMonth tza now - n)
                                        (getDate tza now)) * msPerDay).
Proof.
  rewrite monthsBefore_unfold. f_equal.
  pose proof (time_of_fields tza now) as T.
  set (later := Spec.dayOfMonths (12 * getFullYear tza now + getMonth tza now)
                                 (getDate tza now)) in *.
  set (earlier := Spec.dayOfMonths (12 * getFullYear tza now + getMonth tza now - n)
                                   (getDate tza now)) in *.
  set (time := TimeWithinDay (LocalTime tza now)) in *.
  clearbody later earlier time. unfold msPerDay in *. lia.
Qed.

(** The five cut-off instants are valid dates, each at or before the one
    of the next shorter range, the latest a day before [now]. *)
Lemma cutoffs_ordered tza now :
  0 <= now <= maxTime ->
  exists day month halfYear year fiveYears,
    Spec.subtract tza (Spec.Days 1) now = Some day
    /\ Spec.subtract tza (Spec.Months 1) now = Some month
    /\ Spec.subtract tza (Spec.Months 6) now = Some halfYear
    /\ Spec.subtract tza (Spec.Years 1) now = Some year
    /\ Spec.subtract tza (Spec.Years 5) now = Some fiveYears
    /\ fiveYears <= year <= halfYear /\ halfYear <= month <= day
    /\ day = now - msPerDay.
Proof.
  intros Hnow. cbn [Spec.subtract].
  rewrite !monthsBefore_earlier.
  set (months := 12 * getFullYear tza now + getMonth tza now).
  set (d := getDate tza now).
  pose proof (dayOfMonths_between (months - 1) months d ltac:(lia)) as B1.
  pose proof (dayOfMonths_between (months - 6) (months - 1) d ltac:(lia)) as B6.
  pose proof (dayOfMonths_between (months - 12 * 1) (months - 6) d ltac:(lia)) as B12.
  pose proof (dayOfMonths_between (months - 12 * 5) (months - 12 * 1) d ltac:(lia)) as B60.
  revert B1 B6 B12 B60.
  generalize (Spec.dayOfMonths months d) (Spec.dayOfMonths (months - 1) d)
    (Spec.dayOfMonths (months - 6) d) (Spec.dayOfMonths (months - 12 * 1) d)
    (Spec.dayOfMonths (months - 12 * 5) d).
  clearbody months d. intros b0 b1 b6 b12 b60 B1 B6 B12 B60.
  unfold maxTime, msPerDay in *.
  do 5 eexists.
  repeat (split; [apply TimeClip_in_range; unfold maxTime; lia |]).
  lia.
Qed.

Lemma ge_earlier (d : option Z) (later earlier : Z) :
  earlier <= later -> JSDate.ge d (Some later) = true -> JSDate.ge d (Some earlier) = true.
Proof.
  intros H. destruct d as [t |]; cbn; [| discriminate].
  rewrite !Z.leb_le. lia.
Qed.

Lemma Subsequence_filters {A : Type} (p q : A -> bool) (l : list A) :
  (forall x, p x = true -> q x = true) ->
  Spec.Subsequence (filter p l) (filter q l).
Proof.
  intros H. induction l as [| a l IH]; cbn; [constructor |].
  destruct (p a) eqn:P.
  - rewrite (H a P). now constructor.
  - destruct (q a); [now constructor | exact IH].
Qed.

Lemma Subsequence_transitive {A : Type} (l1 l2 l3 : list A) :
  Spec.Subsequence l1 l2 -> Spec.Subsequence l2 l3 -> Spec.Subsequence l1 l3.
Proof.
  intros H12 H23. revert l1 H12.
  induction H23 as [| x l2 l3 H23 IH | x l2 l3 H23 IH]; intros l1 H12.
  - exact H12.
  - constructor. now apply IH.
  - inversion H12; subst.
    + apply Spec.Subsequence_skip. now apply IH.
    + apply Spec.Subsequence_keep. now apply IH.
Qed.

Lemma Subsequence_In {A : Type} (l1 l2 : list A) (x : A) :
  Spec.Subsequence l1 l2 -> In x l1 -> In x l2.
Proof.
  induction 1 as [| y l1 l2 H IH | y l1 l2 H IH]; cbn; intuition.
Qed.

Lemma filter_at_cutoff tza timeRange period now data :
  Spec.lookBack timeRange = Some period ->
  filterDataByTimeRange tza timeRange now now (Some data)
  = filter (fun bar => JSDate.ge (DateParse.parse tza (date bar))
                                 (Spec.subtract tza period now)) data.
Proof. intros E. now rewrite filterDataByTimeRange_lookBack, E. Qed.

Lemma rangeKeys_index (i : nat) (key : string) :
  nth_error HomeView.rangeKeys i = Some key ->
  (i = 0%nat /\ key = "1D"%string) \/ (i = 1%nat /\ key = "1M"%string)
  \/ (i = 2%nat /\ key = "6M"%string) \/ (i = 3%nat /\ key = "1Y"%string)
  \/ (i = 4%nat /\ key = "5Y"%string) \/ (i = 5%nat /\ key = "ALL"%string).
Proof.
  do 6 (destruct i as [| i]; [intros [= <-]; tauto |]).
  destruct i; discriminate.
Qed.

(** X1. [filterDataByTimeRange] applied to one and the same series, at
    one clock reading after 1970 and in a time zone with a fixed offset
    from UTC: for the ranges 1D, 1M, 6M, 1Y, 5Y, ALL, in the order of
    the toggle group, what the filter keeps of the series under a range
    is a subsequence of what it keeps of it under every range listed
    after it.  This is a property of the filter alone: the page requests
    a series of its own for each range (only 5Y and ALL share a
    request), so it does not compare what the page shows under two
    ranges. *)
Theorem longer_range_keeps_more :
  forall (tza now : Z) (data : list StockData) (i j : nat) (shorter longer : string),
    0 <= now <= maxTime ->
    nth_error HomeView.rangeKeys i = Some shorter ->
    nth_error HomeView.rangeKeys j = Some longer ->
    (i <= j)%nat ->
    Spec.Subsequence (filterDataByTimeRange tza shorter now now (Some data))
                     (filterDataByTimeRange tza longer now now (Some data))
    /\ forall bar,
         In bar (filterDataByTimeRange tza shorter now now (Some data)) ->
         In bar (filterDataByTimeRange tza longer now now (Some data)).
Proof.
  intros tza now data i j shorter longer Hnow Hi Hj Hij.
  assert (S : Spec.Subsequence (filterDataByTimeRange tza shorter now now (Some data))
                (filterDataByTimeRange tza longer now now (Some data))).
  2: { split; [exact S |]. intros bar. now apply Subsequence_In. }
  destruct (cutoffs_ordered tza now Hnow)
    as (c1 & c2 & c3 & c4 & c5 & E1 & E2 & E3 & E4 & E5 & O45 & O23 & _).
  assert (F1 := filter_at_cutoff tza "1D" (Spec.Days 1) now data eq_refl).
  assert (F2 := filter_at_cutoff tza "1M" (Spec.Months 1) now data eq_refl).
  assert (F3 := filter_at_cutoff tza "6M" (Spec.Months 6) now data eq_refl).
  assert (F4 := filter_at_cutoff tza "1Y" (Spec.Years 1) now data eq_refl).
  assert (F5 := filter_at_cutoff tza "5Y" (Spec.Years 5) now data eq_refl).
  assert (F6 : filterDataByTimeRange tza "ALL" now now (Some data) = data)
    by (now rewrite filterDataByTimeRange_lookBack).
  rewrite E1 in F1. rewrite E2 in F2. rewrite E3 in F3. rewrite E4 in F4.
  rewrite E5 in F5. clear E1 E2 E3 E4 E5.
  destruct (rangeKeys_index i shorter Hi)
    as [[-> ->] | [[-> ->] | [[-> ->] | [[-> ->] | [[-> ->] | [-> ->]]]]]];
    destruct (rangeKeys_index j longer Hj)
      as [[-> ->] | [[-> ->] | [[-> ->] | [[-> ->] | [[-> ->] | [-> ->]]]]]];
    try lia;
    rewrite ?F1, ?F2, ?F3, ?F4, ?F5, ?F6;
    try apply Subsequence_refl;
    try apply Subsequence_filter;
    apply Subsequence_filters; intros bar; apply ge_earlier; lia.
Qed.

Lemma longer_range_keeps_more_witness :
  0 <= Sample.now <= maxTime
  /\ Spec.Subsequence
       (filterDataByTimeRange Sample.tza "1M" Sample.now Sample.now (Some Sample.series))
       (filterDataByTimeRange Sample.tza "6M" Sample.now Sample.now (Some Sample.series)).
Proof.
  assert (H : 0 <= Sample.now <= maxTime) by (split; discriminate).
  destruct (longer_range_keeps_more Sample.tza Sample.now Sample.series 1 2 "1M" "6M"
              H eq_refl eq_refl (le_S 1 1 (le_n 1))) as [S _].
  exact (conj H S).
Defined.


Lemma Some_injective {A : Type} (a b : A) : Some a = Some b -> a = b.
Proof. now intros [= H]. Qed.

Lemma DateFromTime_at_most_31 t : DateFromTime t <= 31.
Proof.
  pose proof (YearFromDay_spec (Day t)) as S.
  rewrite DayFromYear_succ in S. unfold DaysInYear in S.
  unfold DateFromTime, MonthFromTime, DayWithinYear, InLeapYear, YearFromTime.
  set (dwy := Day t - DayFromYear (YearFromDay (Day t))).
  assert (B : 0 <= dwy < (if isLeapYear (YearFromDay (Day t)) then 366 else 365))
    by (unfold dwy; lia).
  revert B. generalize (isLeapYear (YearFromDay (Day t))). intros leap B.
  clearbody dwy. clear S.
  unfold monthOfDayWithinYear.
  destruct leap;
    repeat match goal with
      | |- context [ (?a <? ?b) ] => destruct (Z.ltb_spec a b)
      end;
    eval_tables; lia.
Qed.

(** The local calendar fields of the instant at [time] on day [d] of the
    month [months], for a day the month has. *)
Lemma fields_of_dayOfMonths tza months d time c :
  1 <= d <= Spec.daysInMonth (isLeapYear (months / 12)) (months mod 12) ->
  0 <= time < msPerDay ->
  c = Spec.dayOfMonths months d * msPerDay + time - tza ->
  12 * getFullYear tza c + getMonth tza c = months
  /\ getDate tza c = d
  /\ TimeWithinDay (LocalTime tza c) = time.
Proof.
  intros Hd Ht E.
  apply LocalTime_MakeDate in E. rewrite dayOfMonths_MakeDay in E.
  destruct (fields_of_MakeDate (months / 12) (months mod 12) d time
              (mod_12_range months) Hd Ht) as (FY & FM & FD & FT).
  rewrite (getFullYear_unfold tza c), (getMonth_unfold tza c), (getDate_unfold tza c).
  rewrite E, FY, FM, FD, FT.
  repeat split. apply div_mod_12.
Qed.

Lemma dayOfMonths_date months d e :
  Spec.dayOfMonths months d = Spec.dayOfMonths months e + (d - e).
Proof. unfold Spec.dayOfMonths. ring. Qed.

(** A day the month lacks is the day that many days into the next month. *)
Lemma dayOfMonths_overflow months d :
  Spec.dayOfMonths months d
  = Spec.dayOfMonths (months + 1)
      (d - Spec.daysInMonth (isLeapYear (months / 12)) (months mod 12)).
Proof.
  rewrite (dayOfMonths_succ months).
  rewrite (dayOfMonths_date months d
             (d - Spec.daysInMonth (isLeapYear (months / 12)) (months mod 12))).
  ring.
Qed.

Lemma overflow_day (d len next : Z) :
  1 <= d <= 31 -> 28 <= len <= 31 -> 28 <= next <= 31 -> d > len ->
  1 <= d - len <= next.
Proof. lia. Qed.

Lemma subtract_months tza period n now :
  Spec.months period = Some n ->
  Spec.subtract tza period now = Spec.monthsBefore tza n now.
Proof.
  destruct period as [k | k | k]; cbn [Spec.months Spec.subtract];
    [discriminate | |]; now intros [= <-].
Qed.

Lemma fields_when_over tza months d time c :
  1 <= d <= 31 ->
  0 <= time < msPerDay ->
  Spec.daysInMonth (isLeapYear (months / 12)) (months mod 12) < d ->
  c = Spec.dayOfMonths months d * msPerDay + time - tza ->
  12 * getFullYear tza c + getMonth tza c = months + 1
  /\ getDate tza c
     = d - Spec.daysInMonth (isLeapYear (months / 12)) (months mod 12)
  /\ TimeWithinDay (LocalTime tza c) = time.
Proof.
  intros D T Over Hm.
  rewrite dayOfMonths_overflow in Hm.
  pose proof (daysInMonth_range (isLeapYear (months / 12)) (months mod 12)) as L.
  pose proof (daysInMonth_range (isLeapYear ((months + 1) / 12))
                                ((months + 1) mod 12)) as L'.
  pose proof (overflow_day d _ _ D L L' (Z.lt_gt _ _ Over)) as R.
  exact (fields_of_dayOfMonths tza (months + 1)
           (d - Spec.daysInMonth (isLeapYear (months / 12)) (months mod 12))
           time c R T Hm).
Qed.

(** The local calendar fields of the instant at [time] on day [d] of the
    month [months], whether the month has such a day or not. *)
Lemma fields_of_any_day tza months d time c :
  1 <= d <= 31 ->
  0 <= time < msPerDay ->
  c = Spec.dayOfMonths months d * msPerDay + time - tza ->
  TimeWithinDay (LocalTime tza c) = time
  /\ (d <= Spec.daysInMonth (isLeapYear (months / 12)) (months mod 12) ->
      12 * getFullYear tza c + getMonth tza c = months
      /\ getDate tza c = d)
  /\ (Spec.daysInMonth (isLeapYear (months / 12)) (months mod 12) < d ->
      12 * getFullYear tza c + getMonth tza c = months + 1
      /\ getDate tza c
         = d - Spec.daysInMonth (isLeapYear (months / 12)) (months mod 12)).
Proof.
  intros D T Hm. split; [| split].
  - destruct (Z_le_gt_dec d (Spec.daysInMonth (isLeapYear (months / 12)) (months mod 12)))
      as [Fits | Over].
    + destruct (fields_of_dayOfMonths tza months d time c (conj (proj1 D) Fits) T Hm)
        as (_ & _ & F3). exact F3.
    + destruct (fields_when_over tza months d time c D T (Z.gt_lt _ _ Over) Hm)
        as (_ & _ & F3). exact F3.
  - intros Fits.
    destruct (fields_of_dayOfMonths tza months d time c (conj (proj1 D) Fits) T Hm)
      as (F1 & F2 & _). exact (conj F1 F2).
  - intros Over.
    destruct (fields_when_over tza months d time c D T Over Hm) as (F1 & F2 & _).
    exact (conj F1 F2).
Qed.

Lemma getDate_range tza t : 1 <= getDate tza t <= 31.
Proof.
  rewrite getDate_unfold. split.
  - apply DateFromTime_positive.
  - apply DateFromTime_at_most_31.
Qed.

(** A whole number of days back, the time of day is the same. *)
Lemma days_back (tza now n c : Z) :
  c = now - n * msPerDay ->
  TimeWithinDay (LocalTime tza c) = TimeWithinDay (LocalTime tza now)
  /\ Day (LocalTime tza c) = Day (LocalTime tza now) - n.
Proof.
  intros ->. unfold LocalTime, TimeWithinDay, Day.
  replace (now - n * msPerDay + tza) with (now + tza + (- n) * msPerDay) by ring.
  rewrite Z_mod_plus_full, Z.div_add by (unfold msPerDay; discriminate).
  split; [reflexivity | lia].
Qed.

(** X2. The cut-off of the range filter on the calendar, in a time zone
    with a fixed offset from UTC (no daylight-saving transition).  For
    1D it has the local time of day of [now] on the local day before,
    which in such a zone is [now] minus 24 hours.  For the ranges
    counted in months (1M, 6M; 1Y and 5Y as 12 and 60 months) it has the
    time of day of [now]; it falls on the same day of the month, that
    many months back, when that month has such a day; otherwise it runs
    over into the month after, by the number of days the month is short
    (a month back from 31 March is 2 or 3 March). *)
Theorem cutoff_on_the_calendar :
  forall (tza : Z) (timeRange : string) (now : Z) (period : Spec.Period) (c : Z),
    Spec.lookBack timeRange = Some period ->
    cutoff tza timeRange now now = Some (Some c) ->
    (forall n,
        period = Spec.Days n ->
        c = now - n * msPerDay
        /\ TimeWithinDay (LocalTime tza c) = TimeWithinDay (LocalTime tza now)
        /\ Day (LocalTime tza c) = Day (LocalTime tza now) - n)
    /\ (forall n,
           Spec.months period = Some n ->
           TimeWithinDay (LocalTime tza c) = TimeWithinDay (LocalTime tza now)
           /\ (getDate tza now
               <= Spec.daysInMonth
                    (isLeapYear ((12 * getFullYear tza now + getMonth tza now - n) / 12))
                    ((12 * getFullYear tza now + getMonth tza now - n) mod 12) ->
               12 * getFullYear tza c + getMonth tza c
               = 12 * getFullYear tza now + getMonth tza now - n
               /\ getDate tza c = getDate tza now)
           /\ (Spec.daysInMonth
                 (isLeapYear ((12 * getFullYear tza now + getMonth tza now - n) / 12))
                 ((12 * getFullYear tza now + getMonth tza now - n) mod 12)
               < getDate tza now ->
               12 * getFullYear tza c + getMonth tza c
               = 12 * getFullYear tza now + getMonth tza now - n + 1
               /\ getDate tza c
                  = getDate tza now
                    - Spec.daysInMonth
                        (isLeapYear ((12 * getFullYear tza now + getMonth tza now - n) / 12))
                        ((12 * getFullYear tza now + getMonth tza now - n) mod 12))).
Proof.
  intros tza timeRange now period c Hperiod Hcutoff.
  rewrite cutoff_lookBack, Hperiod in Hcutoff. cbn [option_map] in Hcutoff.
  apply Some_injective in Hcutoff.
  split.
  - intros n ->. cbn [Spec.subtract] in Hcutoff. apply TimeClip_Some in Hcutoff.
    exact (conj Hcutoff (days_back tza now n c Hcutoff)).
  - intros n Hn. rewrite (subtract_months tza period n now Hn) in Hcutoff.
    rewrite monthsBefore_unfold in Hcutoff. apply TimeClip_Some in Hcutoff.
    exact (fields_of_any_day tza (12 * getFullYear tza now + getMonth tza now - n)
             (getDate tza now) (TimeWithinDay (LocalTime tza now)) c
             (getDate_range tza now) (TimeWithinDay_range (LocalTime tza now)) Hcutoff).
Qed.

Lemma cutoff_on_the_calendar_witness :
  (Spec.lookBack "1M" = Some (Spec.Months 1)
   /\ cutoff Sample.tza "1M" Sample.march31 Sample.march31 = Some (Some Sample.march2)
   /\ Spec.months (Spec.Months 1) = Some 1)
  /\ TimeWithinDay (LocalTime Sample.tza Sample.march2)
     = TimeWithinDay (LocalTime Sample.tza Sample.march31).
Proof.
  assert (Hcutoff : cutoff Sample.tza "1M" Sample.march31 Sample.march31
                    = Some (Some Sample.march2)) by (vm_compute; reflexivity).
  destruct (cutoff_on_the_calendar Sample.tza "1M" Sample.march31 (Spec.Months 1)
              Sample.march2 eq_refl Hcutoff) as [_ H].
  destruct (H 1 eq_refl) as [Htime _].
  exact (conj (conj eq_refl (conj Hcutoff eq_refl)) Htime).
Defined.

(** The first leg of the journey of 31 March 2024: a month back is
    2 March. *)
Lemma cutoff_march_31 :
  getDate Sample.tza Sample.march31 = 31
  /\ getMonth Sample.tza Sample.march31 = 2
  /\ cutoff Sample.tza "1M" Sample.march31 Sample.march31 = Some (Some Sample.march2)
  /\ getDate Sample.tza Sample.march2 = 2
  /\ getMonth Sample.tza Sample.march2 = 2.
Proof. repeat split; vm_compute; reflexivity. Qed.

End LookBackFacts.

(** ** What the range filter keeps *)

Module FilterFacts.
Import JSDate JSDateFacts Home HomeFacts LookBackFacts.

Lemma cutoff_of_filtering_range tza timeRange now cutoffDate :
  In timeRange ["1D"; "1M"; "6M"; "1Y"; "5Y"]%string ->
  exists c, cutoff tza timeRange now cutoffDate = Some c.
Proof.
  intros [<- | [<- | [<- | [<- | [<- | []]]]]]; unfold cutoff;
    cbn [String.eqb Ascii.eqb Bool.eqb]; eexists; reflexivity.
Qed.

(** X3. Under each of the five filtering ranges a bar whose date string does
    not read as a date is dropped, whatever the cut-off; and when the
    cut-off itself is not a valid date, every bar is dropped. *)
Theorem undated_bars_are_dropped :
  forall (tza : Z) (timeRange : string) (now cutoffDate : Z)
         (data : list StockData) (bar : StockData),
    In timeRange ["1D"; "1M"; "6M"; "1Y"; "5Y"]%string ->
    (DateParse.parse tza (date bar) = None ->
     ~ In bar (filterDataByTimeRange tza timeRange now cutoffDate (Some data)))
    /\ (cutoff tza timeRange now cutoffDate = Some None ->
        filterDataByTimeRange tza timeRange now cutoffDate (Some data) = []).
Proof.
  intros tza timeRange now cutoffDate data bar Hrange.
  destruct (cutoff_of_filtering_range tza timeRange now cutoffDate Hrange) as (c & Hc).
  unfold filterDataByTimeRange. rewrite Hc. split.
  - intros Hdate Hin. apply filter_In in Hin. rewrite Hdate in Hin.
    destruct Hin as [_ Hin]. discriminate Hin.
  - intros [= ->]. induction data as [| a l IH]; [reflexivity |].
    cbn [filter]. destruct (DateParse.parse tza (date a)); exact IH.
Qed.

Lemma undated_bars_are_dropped_witness :
  (In "1M"%string ["1D"; "1M"; "6M"; "1Y"; "5Y"]%string
   /\ DateParse.parse Sample.tza (date (Sample.flat "n/a" 100)) = None)
  /\ ~ In (Sample.flat "n/a" 100)
         (filterDataByTimeRange Sample.tza "1M" Sample.now Sample.now
            (Some [Sample.flat "n/a" 100; Sample.june])).
Proof.
  assert (Hrange : In "1M"%string ["1D"; "1M"; "6M"; "1Y"; "5Y"]%string)
    by (right; left; reflexivity).
  destruct (undated_bars_are_dropped Sample.tza "1M" Sample.now Sample.now
              [Sample.flat "n/a" 100; Sample.june] (Sample.flat "n/a" 100) Hrange)
    as [H _].
  exact (conj (conj Hrange eq_refl) (H eq_refl)).
Defined.

(** On a list in the order of a relation, a test that passes on from a
    bar to every bar after it keeps an end of the list. *)
Lemma filter_suffix {A : Type} (R : A -> A -> Prop) (p : A -> bool) (l : list A) :
  StronglySorted R l ->
  (forall a b, R a b -> p a = true -> p b = true) ->
  exists dropped,
    l = dropped ++ filter p l /\ Forall (fun a => p a = false) dropped.
Proof.
  intros Hsorted Hp. induction Hsorted as [| a l Hl IH Ha].
  - exists []. split; [reflexivity | constructor].
  - cbn [filter]. destruct (p a) eqn:P.
    + exists []. split; [| constructor]. cbn [app]. f_equal.
      symmetry. apply forallb_filter_id. apply forallb_forall.
      intros b Hb. rewrite Forall_forall in Ha. apply (Hp a b (Ha b Hb) P).
    + destruct IH as (dropped & E & F).
      exists (a :: dropped). split; [cbn [app]; now f_equal | now constructor].
Qed.

Lemma ge_later tza (a b : StockData) (c : option Z) :
  Spec.datedBefore tza a b ->
  JSDate.ge (DateParse.parse tza (date a)) c = true ->
  JSDate.ge (DateParse.parse tza (date b)) c = true.
Proof.
  unfold Spec.datedBefore.
  destruct (DateParse.parse tza (date a)) as [x |]; [| contradiction].
  destruct (DateParse.parse tza (date b)) as [y |]; [| contradiction].
  destruct c as [c |]; cbn; [| discriminate].
  rewrite !Z.leb_le. lia.
Qed.

Lemma filterDataByTimeRange_suffix tza timeRange now cutoffDate data :
  Sorted (Spec.datedBefore tza) data ->
  exists dropped,
    data = dropped ++ filterDataByTimeRange tza timeRange now cutoffDate (Some data).
Proof.
  intros Hsorted. unfold filterDataByTimeRange.
  destruct (cutoff tza timeRange now cutoffDate) as [c |]; [| now exists []].
  apply Sorted_StronglySorted in Hsorted; [| apply datedBefore_transitive].
  destruct (filter_suffix (Spec.datedBefore tza)
              (fun item => JSDate.ge (DateParse.parse tza (date item)) c) data Hsorted)
    as (dropped & E & _).
  - intros a b. apply ge_later.
  - now exists dropped.
Qed.

Lemma nth_error_last_app {A : Type} (l1 l2 : list A) :
  l2 <> [] ->
  nth_error (l1 ++ l2) (List.length (l1 ++ l2) - 1)
  = nth_error l2 (List.length l2 - 1).
Proof.
  intros H. rewrite length_app.
  assert (0 < List.length l2)%nat by (destruct l2; [congruence | cbn; lia]).
  rewrite nth_error_app2 by lia. f_equal. lia.
Qed.

Lemma nth_error_last {A : Type} (l : list A) :
  l <> [] -> exists last, nth_error l (List.length l - 1) = Some last.
Proof.
  intros H. destruct (nth_error l (List.length l - 1)) as [last |] eqn:E; [eauto |].
  apply nth_error_None in E. destruct l; [congruence | cbn in E; lia].
Qed.

(** X4. On a series in ascending order of date the range filter drops a
    beginning of the list and keeps the rest; so, whenever it keeps
    anything, the cards for current price and volume show the close and
    the volume of the latest fetched bar. *)
Theorem filter_keeps_the_latest_bars :
  forall (tza : Z) (timeRange : string) (now cutoffDate : Z) (data : list StockData),
    Sorted (Spec.datedBefore tza) data ->
    (exists dropped,
        data = dropped ++ filterDataByTimeRange tza timeRange now cutoffDate (Some data))
    /\ (filterDataByTimeRange tza timeRange now cutoffDate (Some data) <> [] ->
        exists shown latest,
          HomeView.cards (Some data) false
            (filteredData tza (Some data) timeRange now cutoffDate)
          = HomeView.Content shown
          /\ nth_error data (List.length data - 1) = Some latest
          /\ HomeView.currentPrice shown = close latest
          /\ HomeView.volumeMillions shown = (volume latest / 1000000)%Q).
Proof.
  intros tza timeRange now cutoffDate data Hsorted.
  destruct (filterDataByTimeRange_suffix tza timeRange now cutoffDate data Hsorted)
    as (dropped & E).
  split; [now exists dropped |].
  unfold filteredData.
  set (filtered := filterDataByTimeRange tza timeRange now cutoffDate (Some data)) in *.
  clearbody filtered. intros Hne.
  destruct (nth_error_last filtered Hne) as (latest & Hlatest).
  unfold HomeView.cards.
  destruct filtered as [| first rest]; [congruence |].
  cbn [List.length Nat.ltb Nat.leb]. cbn [List.length] in Hlatest.
  rewrite Hlatest. cbn [nth_error].
  eexists. exists latest. split; [reflexivity |]. split; [| split; reflexivity].
  rewrite E, nth_error_last_app by discriminate. exact Hlatest.
Qed.

Lemma filter_keeps_the_latest_bars_witness :
  (Sorted (Spec.datedBefore Sample.tza) Sample.series
   /\ filterDataByTimeRange Sample.tza "1M" Sample.now Sample.now (Some Sample.series)
      <> [])
  /\ exists shown,
       HomeView.cards (Some Sample.series) false
         (filteredData Sample.tza (Some Sample.series) "1M" Sample.now Sample.now)
       = HomeView.Content shown
       /\ HomeView.currentPrice shown = close Sample.june.
Proof.
  assert (Hne : filterDataByTimeRange Sample.tza "1M" Sample.now Sample.now
                  (Some Sample.series) <> [])
    by (vm_compute; discriminate).
  destruct (filter_keeps_the_latest_bars Sample.tza "1M" Sample.now Sample.now
              Sample.series series_ascending) as [_ H].
  destruct (H Hne) as (shown & latest & Hcards & Hlatest & Hprice & _).
  injection Hlatest as <-.
  split; [exact (conj series_ascending Hne) |].
  exists shown. exact (conj Hcards Hprice).
Defined.

End FilterFacts.

(** ** The outcomes of the fetcher *)

Module FetcherOutcomes.
Import Home HomeFacts FetcherFacts.

Section Fetcher.
Variable parseFloat : option JSON -> Q.
Variable numberToString : Q -> string.




Lemma entries_error (v : option JSON) (e : Exception) :
  JS.entries v = inl e -> e = TypeError.
Proof. destruct v as [[] |]; cbn; congruence. Qed.




Lemma StronglySorted_app {A : Type} (R : A -> A -> Prop) (l1 l2 : list A) :
  StronglySorted R l1 -> StronglySorted R l2 ->
  (forall a b, In a l1 -> In b l2 -> R a b) ->
  StronglySorted R (l1 ++ l2).
Proof.
  intros H1 H2 H. induction H1 as [| a l1 H1 IH Ha]; [exact H2 |].
  cbn [app]. constructor.
  - apply IH. intros x y Hx Hy. apply H; [now right | exact Hy].
  - apply Forall_app. split; [exact Ha |].
    apply Forall_forall. intros b Hb. apply H; [now left | exact Hb].
Qed.

Lemma StronglySorted_rev {A : Type} (R : A -> A -> Prop) (l : list A) :
  StronglySorted (fun a b => R b a) l -> StronglySorted R (rev l).
Proof.
  induction 1 as [| a l Hl IH Ha]; [constructor |].
  cbn [rev]. apply StronglySorted_app; [exact IH | repeat constructor |].
  intros x y Hx [<- | []]. apply in_rev in Hx.
  rewrite Forall_forall in Ha. now apply Ha.
Qed.

Lemma StronglySorted_map {A B : Type} (R : B -> B -> Prop) (f : A -> B) (l : list A) :
  StronglySorted R (map f l) -> StronglySorted (fun a b => R (f a) (f b)) l.
Proof.
  induction l as [| a l IH]; [constructor |].
  cbn [map]. intros H. inversion H as [| ? ? Hl Ha]; subst.
  constructor; [now apply IH |].
  apply Forall_forall. intros b Hb. rewrite Forall_forall in Ha.
  apply Ha. now apply in_map.
Qed.

Lemma dateBefore_transitive tza :
  Transitive (fun s t => Spec.dateBefore tza t s).
Proof.
  intros s t u. unfold Spec.dateBefore.
  destruct (DateParse.parse tza s), (DateParse.parse tza t), (DateParse.parse tza u);
    try tauto. lia.
Qed.

(** X7. For a time series whose keys are valid date strings in strictly
    descending order, as the quote API sends them, the fetcher returns
    the bars in strictly ascending order of date, and so is the filtered
    series under every time range. *)
Theorem fetcher_returns_oldest_first :
  forall (tza : Z) (data : list (string * JSON)) (key : string)
         (series : list (string * JSON)),
    JS.truthy (JS.lookup "Error Message" data) = false ->
    JS.truthy (JS.lookup "Note" data) = false ->
    find (fun key => JS.includes "Time Series" key) (JS.keys data) = Some key ->
    JS.lookup key data = Some (JObject series) ->
    Forall (fun entry => snd entry <> JNull) series ->
    Sorted (fun s t => Spec.dateBefore tza t s) (map fst series) ->
    exists bars,
      fetcher parseFloat numberToString data = inr bars
      /\ Sorted (Spec.datedBefore tza) bars
      /\ forall timeRange now cutoffDate,
           Sorted (Spec.datedBefore tza)
                  (filteredData tza (Some bars) timeRange now cutoffDate).
Proof.
  intros tza data key series HE HN Hkey Hseries Hnull Hsorted.
  destruct (fetcher_success parseFloat numberToString data key series
              HE HN Hkey Hseries Hnull) as (bars & Hbars & Hdates).
  exists bars. split; [exact Hbars |].
  assert (S : Sorted (Spec.datedBefore tza) bars).
  { apply StronglySorted_Sorted.
    apply (StronglySorted_map (fun s t => Spec.dateBefore tza s t)
                              (fun bar : Bar string => date bar)).
    rewrite Hdates. apply StronglySorted_rev.
    apply Sorted_StronglySorted; [apply dateBefore_transitive | exact Hsorted]. }
  split; [exact S |].
  intros timeRange now cutoffDate. unfold filteredData.
  apply (Subsequence_Sorted_datedBefore tza _ bars); [| exact S].
  apply filterDataByTimeRange_Subsequence.
Qed.

End Fetcher.



Lemma sample_newest_first :
  Sorted (fun s t => Spec.dateBefore Sample.tza t s)
         (map fst [("2024-06-01"%string, Sample.values "110.0");
                   ("2024-05-01"%string, Sample.values "100.0")]).
Proof.
  apply Sorted_cons; [apply Sorted_cons; [apply Sorted_nil | apply HdRel_nil] |].
  apply HdRel_cons. unfold Spec.dateBefore.
  rewrite parse_2024_05_01, parse_2024_06_01. reflexivity.
Defined.

Lemma sample_not_null :
  Forall (fun entry : string * JSON => snd entry <> JNull)
         [("2024-06-01"%string, Sample.values "110.0");
          ("2024-05-01"%string, Sample.values "100.0")].
Proof. repeat constructor; discriminate. Defined.

Lemma fetcher_returns_oldest_first_witness :
  (JS.truthy (JS.lookup "Error Message" Sample.response) = false
   /\ JS.truthy (JS.lookup "Note" Sample.response) = false)
  /\ exists bars,
       fetcher Sample.parseFloat Sample.numberToString Sample.response = inr bars
       /\ Sorted (Spec.datedBefore Sample.tza) bars.
Proof.
  destruct (fetcher_returns_oldest_first Sample.parseFloat Sample.numberToString
              Sample.tza Sample.response "Time Series (Daily)"
              [("2024-06-01"%string, Sample.values "110.0");
               ("2024-05-01"%string, Sample.values "100.0")]
              eq_refl eq_refl eq_refl eq_refl sample_not_null sample_newest_first)
    as (bars & Hbars & Hsorted & _).
  split; [exact (conj eq_refl eq_refl) |].
  exists bars. exact (conj Hbars Hsorted).
Defined.

End FetcherOutcomes.

Module FetcherBars.
Import Home HomeFacts FetcherFacts FetcherOutcomes.

Section Fetcher.
Variable parseFloat : option JSON -> Q.
Variable numberToString : Q -> string.

Lemma mapBars_nth (series : list (string * JSON)) (bars : list StockData) :
  mapBars parseFloat series = inr bars ->
  List.length bars = List.length series
  /\ forall k entry,
       nth_error series k = Some entry ->
       exists bar, toBar parseFloat entry = inr bar /\ nth_error bars k = Some bar.
Proof.
  revert bars. induction series as [| first rest IH]; intros bars.
  - intros [= <-]. split; [reflexivity |]. intros [| k] entry; discriminate.
  - cbn [mapBars]. destruct (toBar parseFloat first) as [e | bar] eqn:B; [discriminate |].
    destruct (mapBars parseFloat rest) as [e | others]; [discriminate |].
    intros [= <-]. destruct (IH others eq_refl) as [Hlen Hnth].
    split; [cbn; now rewrite Hlen |].
    intros [| k] entry; cbn [nth_error].
    + intros [= <-]. now exists bar.
    + apply Hnth.
Qed.

Lemma toBar_fields (key : string) (fields : list (string * JSON)) (bar : StockData) :
  toBar parseFloat (key, JObject fields) = inr bar ->
  bar = {| date := key;
           open := parseFloat (JS.lookup "1. open" fields);
           high := parseFloat (JS.lookup "2. high" fields);
           low := parseFloat (JS.lookup "3. low" fields);
           close := parseFloat (JS.lookup "4. close" fields);
           volume := parseFloat (JS.lookup "5. volume" fields) |}.
Proof. cbn. now intros [= <-]. Qed.

(** X8. The fetcher returns one bar per entry of the time series, in reverse
    order: the bar at position [n - 1 - k] is made of entry [k], its date
    the key of the entry and its five numbers [parseFloat] of the
    properties "1. open" to "5. volume". *)
Theorem fetcher_mirrors_the_entries :
  forall (data : list (string * JSON)) (key : string)
         (series : list (string * JSON)) (bars : list StockData),
    JS.truthy (JS.lookup "Error Message" data) = false ->
    JS.truthy (JS.lookup "Note" data) = false ->
    find (fun key => JS.includes "Time Series" key) (JS.keys data) = Some key ->
    JS.lookup key data = Some (JObject series) ->
    fetcher parseFloat numberToString data = inr bars ->
    List.length bars = List.length series
    /\ forall k day fields,
         nth_error series k = Some (day, JObject fields) ->
         nth_error bars (List.length series - 1 - k)
         = Some {| date := day;
                   open := parseFloat (JS.lookup "1. open" fields);
                   high := parseFloat (JS.lookup "2. high" fields);
                   low := parseFloat (JS.lookup "3. low" fields);
                   close := parseFloat (JS.lookup "4. close" fields);
                   volume := parseFloat (JS.lookup "5. volume" fields) |}.
Proof.
  intros data key series bars HE HN Hkey Hseries.
  assert (F : fetcher parseFloat numberToString data
              = match mapBars parseFloat series with
                | inl e => inl e
                | inr bars => inr (rev bars)
                end).
  { unfold fetcher. rewrite HE, HN. cbv zeta. rewrite Hkey, Hseries. reflexivity. }
  rewrite F. destruct (mapBars parseFloat series) as [e | mapped] eqn:M; [discriminate |].
  intros [= <-]. destruct (mapBars_nth series mapped M) as [Hlen Hnth].
  split; [now rewrite length_rev |].
  intros k day fields Hk.
  destruct (Hnth k _ Hk) as (bar & Hbar & Hmapped).
  apply toBar_fields in Hbar. subst bar.
  assert (k < List.length series)%nat by (apply nth_error_Some; congruence).
  rewrite nth_error_rev, Hlen.
  destruct (Nat.ltb_spec (List.length series - 1 - k) (List.length series)); [| lia].
  transitivity (nth_error mapped k); [f_equal; lia | exact Hmapped].
Qed.

End Fetcher.

Lemma fetcher_mirrors_the_entries_witness :
  (JS.truthy (JS.lookup "Error Message" Sample.response) = false
   /\ JS.truthy (JS.lookup "Note" Sample.response) = false)
  /\ exists bars,
       fetcher Sample.parseFloat Sample.numberToString Sample.response = inr bars
       /\ List.length bars = 2%nat.
Proof.
  assert (H : exists bars,
             fetcher Sample.parseFloat Sample.numberToString Sample.response = inr bars)
    by (eexists; reflexivity).
  destruct H as (bars & H).
  destruct (fetcher_mirrors_the_entries Sample.parseFloat Sample.numberToString
              Sample.response "Time Series (Daily)"
              [("2024-06-01"%string, Sample.values "110.0");
               ("2024-05-01"%string, Sample.values "100.0")]
              bars eq_refl eq_refl eq_refl eq_refl H) as [Hlen _].
  split; [exact (conj eq_refl eq_refl) |].
  exists bars. exact (conj H Hlen).
Defined.

End FetcherBars.

(** ** The layout of the chart *)

Module ChartLayout.
Import D3 D3Facts ScaleFacts StockChart StockChartFacts.
Local Open Scope Q_scope.

(** X9. For every non-empty series of fewer than 2^31 bars, in whatever
    order, every scale and every pointer position the [mousemove] handler
    ends, does not throw and shows a bar of the series; so it does when
    date strings of the series do not parse and when the scale has no
    domain. *)
Theorem tooltip_always_shows_a_bar :
  forall (parseDate : string -> option Z) (data : list StockData)
         (xScale : option Scale) (pointer : Q),
    data <> [] ->
    (2 * Z.of_nat (List.length data) < 2 ^ 32)%Z ->
    exists selected,
      mousemove parseDate data xScale pointer = Done selected
      /\ In selected (formattedData parseDate data).
Proof.
  intros parseDate data xScale pointer Hne Hlen.
  set (fd := formattedData parseDate data).
  set (dates := map (fun d : Bar (option Z) => date d) fd).
  assert (Hsize : List.length dates = List.length data).
  { unfold dates, fd. now rewrite length_map, formattedData_length. }
  assert (Hdates : dates <> []).
  { destruct dates; [| discriminate]. destruct data; [congruence | discriminate]. }
  destruct (bisectLeft_bounds dates (invertDate xScale pointer) Hdates ltac:(lia))
    as (i & Hi & Hrange).
  rewrite Hsize in Hrange.
  destruct (at_Some fd (i - 1)) as (selected & Hselected).
  { unfold fd. rewrite formattedData_length. lia. }
  exists selected. split; [| exact (at_In _ _ _ Hselected)].
  unfold mousemove, bisect. fold fd. fold dates. now rewrite Hi, Hselected.
Qed.

Lemma tooltip_always_shows_a_bar_witness :
  (rev Sample.series <> []
   /\ (2 * Z.of_nat (List.length (rev Sample.series)) < 2 ^ 32)%Z)
  /\ exists selected,
       mousemove Sample.parseDate (rev Sample.series) (Some Sample.xScale)
                 Sample.pointer
       = Done selected.
Proof.
  assert (Hne : rev Sample.series <> []) by discriminate.
  assert (Hlen : (2 * Z.of_nat (List.length (rev Sample.series)) < 2 ^ 32)%Z)
    by reflexivity.
  destruct (tooltip_always_shows_a_bar Sample.parseDate (rev Sample.series)
              (Some Sample.xScale) Sample.pointer Hne Hlen) as (selected & H & _).
  split; [exact (conj Hne Hlen) |].
  exists selected. exact H.
Defined.


Lemma difference_zero (a b : Q) : a - b == 0 -> a == b.
Proof. intros H. lra. Qed.

(** On a falling scale the body of a candle, hung from the scaled
    greater of open and close, ends at the scaled lesser of the two. *)
Lemma body_bottom (s : Scale) (o c : Q) :
  (forall v w, v <= w -> apply s w <= apply s v) ->
  apply s (Qmax o c) + Qabs (apply s o - apply s c) == apply s (Qmin o c).
Proof.
  intros Hfall. unfold Qmax, Qmin, GenericMinMax.gmax, GenericMinMax.gmin.
  destruct (o ?= c) eqn:C.
  - apply Qeq_alt in C.
    pose proof (Hfall o c ltac:(lra)). pose proof (Hfall c o ltac:(lra)).
    rewrite Qabs_pos by lra. lra.
  - apply Qlt_alt in C. pose proof (Hfall o c ltac:(lra)).
    rewrite Qabs_pos by lra. lra.
  - apply Qgt_alt in C. pose proof (Hfall c o ltac:(lra)).
    rewrite Qabs_neg by lra. lra.
Qed.

Section Render.
Variable parseDate : string -> option Z.
Variable data : list StockData.

Lemma formattedData_In (d : Bar (option Z)) :
  In d (formattedData parseDate data) ->
  exists bar, In bar data /\ date d = parseDate (date bar)
              /\ open d = open bar /\ high d = high bar
              /\ low d = low bar /\ close d = close bar /\ volume d = volume bar.
Proof.
  unfold formattedData. rewrite in_map_iff. intros (bar & <- & Hin).
  exists bar. cbn. repeat split; assumption.
Qed.

(** X10. The horizontal scale, the inner width not being negative.  When
    no date string of the series parses, as with the keys of the
    intraday series under [%Y-%m-%d], the scale has no domain and no bar
    has a horizontal position.  When some date string parses, the domain
    runs from the earliest to the latest of the parsed dates; every bar
    whose date string parses lies between 0 and the inner width, and a
    bar whose date string does not parse has no position; a later date
    never lies left of an earlier one; with two distinct dates the
    earliest bar lies at 0 and the latest at the inner width; when all
    parsed dates are one date the bars lie in the middle. *)
Theorem bars_placed_in_date_order :
  forall width : Q,
    0 <= innerWidth width ->
    ((forall d, In d (formattedData parseDate data) -> date d = None) ->
     x parseDate data width = None
     /\ forall d, In d (formattedData parseDate data) ->
          applyDate (x parseDate data width) (date d) = None)
    /\ ((exists d t, In d (formattedData parseDate data) /\ date d = Some t) ->
        exists xScale earliest latest,
          x parseDate data width = Some xScale
          /\ domain xScale = (inject_Z earliest, inject_Z latest)
          /\ range xScale = (0, innerWidth width)
          /\ (exists d, In d (formattedData parseDate data)
                        /\ date d = Some earliest)
          /\ (exists d, In d (formattedData parseDate data)
                        /\ date d = Some latest)
          /\ (forall d t,
                 In d (formattedData parseDate data) -> date d = Some t ->
                 (earliest <= t <= latest)%Z
                 /\ applyDate (x parseDate data width) (date d)
                    = Some (applyTime xScale t)
                 /\ 0 <= applyTime xScale t <= innerWidth width)
          /\ (forall d,
                 In d (formattedData parseDate data) -> date d = None ->
                 applyDate (x parseDate data width) (date d) = None)
          /\ (forall s t : Z, (s <= t)%Z -> applyTime xScale s <= applyTime xScale t)
          /\ ((earliest < latest)%Z ->
              applyTime xScale earliest == 0
              /\ applyTime xScale latest == innerWidth width)
          /\ (earliest = latest ->
              forall d t,
                In d (formattedData parseDate data) -> date d = Some t ->
                applyTime xScale t == innerWidth width / 2)).
Proof.
  intros width Hwidth. split.
  - intros Hnone. rewrite (x_undefined parseDate data width Hnone).
    split; [reflexivity |]. intros d _. reflexivity.
  - intros Hsome.
    destruct (x_scale parseDate data width Hsome)
      as (earliest & latest & Hx & Hearliest & Hlatest & Hall).
    eexists. exists earliest, latest. split; [exact Hx |].
    split; [reflexivity |]. split; [reflexivity |].
    split; [exact Hearliest |]. split; [exact Hlatest |].
    assert (Hd : inject_Z earliest <= inject_Z latest).
    { rewrite <- Zle_Qle. destruct Hlatest as (d & Hdin & Hdate).
      apply (Hall d latest Hdin Hdate). }
    destruct (apply_rising (inject_Z earliest) (inject_Z latest)
                0 (innerWidth width) Hd Hwidth) as [Hmono Hin].
    rewrite Hx. unfold applyTime. split; [| split; [| split; [| split]]].
    + intros d t Hdin Hdate. split; [now apply (Hall d) |].
      split; [now rewrite Hdate |].
      apply Hin. rewrite <- !Zle_Qle. now apply (Hall d).
    + intros d _ ->. reflexivity.
    + intros s t Hst. apply Hmono. now rewrite <- Zle_Qle.
    + intros Hlt.
      assert (N : ~ inject_Z latest - inject_Z earliest == 0).
      { intros E. pose proof (proj1 (inject_Z_injective _ _) (difference_zero _ _ E)). lia. }
      rewrite !apply_line by exact N. split; field; exact N.
    + intros E d t Hdin Hdate.
      assert (P : inject_Z latest - inject_Z earliest == 0)
        by (rewrite E; ring).
      rewrite (apply_point _ _ _ _ _ P). field.
Qed.

(** The price scale of a non-empty series of non-negative prices: its
    domain ascends and holds the close of every bar, and the low and the
    high of every bar whose low is not above its high. *)
Lemma y_scale (height : Q) :
  data <> [] ->
  (forall bar, In bar data -> 0 <= low bar /\ 0 <= close bar) ->
  exists bottom top,
    y parseDate data height
    = Some {| domain := (bottom, top); range := (innerHeight height, 0) |}
    /\ bottom <= top
    /\ forall d, In d (formattedData parseDate data) ->
         bottom <= Qmin (low d) (close d) /\ Qmax (high d) (close d) <= top.
Proof.
  intros Hne Hprices.
  destruct (y_defined parseDate data height Hne)
    as (lowest & highest & Hy & [(dl & Hdl & El) Hmin] & [(dh & Hdh & Eh) Hmax]).
  exists (lowest * (995 # 1000)), (highest * (1005 # 1000)).
  split; [exact Hy |].
  assert (P : 0 <= lowest).
  { rewrite El. destruct (formattedData_In dl Hdl) as (bar & Hbar & _ & _ & _ & -> & -> & _).
    destruct (Hprices bar Hbar). now apply Q.min_glb. }
  assert (O : lowest <= highest).
  { pose proof (Hmin dl Hdl) as L. pose proof (Hmax dl Hdl) as U.
    pose proof (Q.le_min_r (low dl) (close dl)).
    pose proof (Q.le_max_r (high dl) (close dl)). lra. }
  split; [lra |].
  intros d Hd. pose proof (Hmin d Hd). pose proof (Hmax d Hd). split; lra.
Qed.


(** X11. In line mode a non-empty series of non-negative prices is drawn as
    one point per bar, in the order of the bars, at the scaled close,
    which lies within the plot (between 0 and the inner height); the
    area below reaches from the same points down to the inner height.
    The point of a bar whose date string parses stands at the scaled
    date, between 0 and the inner width; the point of a bar whose date
    string does not parse, as with the keys of the intraday series, has
    no horizontal position. *)
Theorem line_chart_within_the_plot :
  forall width height : Q,
    data <> [] ->
    0 <= innerWidth width -> 0 <= innerHeight height ->
    (forall bar, In bar data -> 0 <= low bar /\ 0 <= close bar) ->
    exists yScale gradient color area line,
      y parseDate data height = Some yScale
      /\ draw parseDate data false width height
         = Some (AreaLine gradient color area line)
      /\ List.length line = List.length data
      /\ List.length area = List.length data
      /\ forall k d,
           nth_error (formattedData parseDate data) k = Some d ->
           exists position,
             nth_error line k = Some (position, apply yScale (close d))
             /\ nth_error area k
                = Some (position, innerHeight height, apply yScale (close d))
             /\ 0 <= apply yScale (close d) <= innerHeight height
             /\ (forall t,
                    date d = Some t ->
                    exists xScale,
                      x parseDate data width = Some xScale
                      /\ position = Some (applyTime xScale t)
                      /\ 0 <= applyTime xScale t <= innerWidth width)
             /\ (date d = None -> position = None).
Proof.
  intros width height Hne Hwidth Hheight Hprices.
  destruct (y_scale height Hne Hprices) as (bottom & top & Hy & Horder & Hdomain).
  destruct (chartColor_defined parseDate data Hne) as (color & Hcolor).
  pose proof (formattedData_nonempty parseDate data Hne) as Hfd.
  destruct (min_spec (fun d : Bar (option Z) => low d) _ Hfd) as (lowest & Hlowest & _).
  destruct (max_spec (fun d : Bar (option Z) => high d) _ Hfd) as (highest & Hhighest & _).
  do 2 eexists. exists color. do 2 eexists.
  split; [exact Hy |]. split.
  { unfold draw. destruct data; [congruence |].
    cbn [List.length Nat.eqb]. rewrite Hcolor, Hy.
    unfold glyphs. cbn [negb]. rewrite Hlowest, Hhighest. reflexivity. }
  rewrite !length_map, formattedData_length.
  split; [reflexivity |]. split; [reflexivity |].
  intros k d Hd. rewrite !nth_error_map, Hd. cbn [option_map].
  eexists. split; [reflexivity |]. split; [reflexivity |].
  pose proof (nth_error_In _ _ Hd) as Hin.
  destruct (apply_falling bottom top (innerHeight height) 0 Horder Hheight) as [_ Hyin].
  split; [| split].
  - apply Hyin. destruct (Hdomain d Hin) as [L U].
    pose proof (Q.le_min_r (low d) (close d)).
    pose proof (Q.le_max_r (high d) (close d)). lra.
  - intros t Ht.
    destruct (x_scale parseDate data width
                (ex_intro _ d (ex_intro _ t (conj Hin Ht))))
      as (earliest & latest & Hx & _ & (dl & Hdl & Hlatest) & Hall).
    eexists. split; [exact Hx |]. rewrite Hx, Ht. split; [reflexivity |].
    assert (Hdates : inject_Z earliest <= inject_Z latest).
    { rewrite <- Zle_Qle. apply (Hall dl latest Hdl Hlatest). }
    destruct (apply_rising _ _ 0 (innerWidth width) Hdates Hwidth) as [_ Hxin].
    unfold applyTime. apply Hxin. rewrite <- !Zle_Qle. now apply (Hall d).
  - intros ->. now destruct (x parseDate data width).
Qed.

(** X12. In candlestick mode, for a non-empty series of non-negative prices,
    the price scale falls (a higher price is drawn further up); the body
    of a candle ends at the scaled lesser of open and close; the wick of
    a bar whose low is not above its high runs downwards and lies within
    the plot; and the body of a bar whose open and close lie between its
    low and high lies within its wick. *)
Theorem candles_within_the_plot :
  forall width height : Q,
    data <> [] ->
    0 <= innerHeight height ->
    (forall bar, In bar data -> 0 <= low bar /\ 0 <= close bar) ->
    exists yScale candles,
      y parseDate data height = Some yScale
      /\ draw parseDate data true width height = Some (Candlesticks candles)
      /\ (forall v w, v <= w -> apply yScale w <= apply yScale v)
      /\ forall k d,
           nth_error (formattedData parseDate data) k = Some d ->
           exists c,
             nth_error candles k = Some c
             /\ rect_y (body c) + rect_height (body c)
                == apply yScale (Qmin (open d) (close d))
             /\ (low d <= high d ->
                 0 <= y1 (wick c) /\ y1 (wick c) <= y2 (wick c)
                 /\ y2 (wick c) <= innerHeight height)
             /\ (low d <= Qmin (open d) (close d) ->
                 Qmax (open d) (close d) <= high d ->
                 y1 (wick c) <= rect_y (body c)
                 /\ rect_y (body c) + rect_height (body c) <= y2 (wick c)).
Proof.
  intros width height Hne Hheight Hprices.
  destruct (y_scale height Hne Hprices) as (bottom & top & Hy & Horder & Hdomain).
  destruct (draw_candlesticks parseDate data width height Hne)
    as (yScale & Hy' & Hdraw).
  rewrite Hy in Hy'. injection Hy' as <-.
  destruct (apply_falling bottom top (innerHeight height) 0 Horder Hheight)
    as [Hfall Hin].
  do 2 eexists. split; [exact Hy |]. split; [exact Hdraw |]. split; [exact Hfall |].
  intros k d Hd. eexists.
  split; [apply (candlestick_at parseDate data width _ _ k d Hd) |].
  cbn [candlestick wick body y1 y2 rect_y rect_height].
  pose proof (nth_error_In _ _ Hd) as Hdin.
  destruct (Hdomain d Hdin) as [L U].
  pose proof (Q.le_min_l (low d) (close d)).
  pose proof (Q.le_max_l (high d) (close d)).
  split; [apply body_bottom; exact Hfall |]. split.
  - intros Hlh.
    destruct (Hin (high d) ltac:(lra)) as [Htop _].
    destruct (Hin (low d) ltac:(lra)) as [_ Hbottom].
    exact (conj Htop (conj (Hfall (low d) (high d) Hlh) Hbottom)).
  - intros Hlow Hhigh. rewrite body_bottom by exact Hfall.
    split; apply Hfall; assumption.
Qed.

End Render.

Lemma sample_prices :
  forall bar, In bar Sample.series -> 0 <= low bar /\ 0 <= close bar.
Proof.
  intros bar [<- | [<- | []]]; split; discriminate.
Defined.

Lemma innerHeight_positive : 0 <= innerHeight 400.
Proof. discriminate. Defined.

Lemma innerWidth_not_negative : 0 <= innerWidth 800.
Proof. discriminate. Defined.

Lemma bars_placed_in_date_order_witness :
  0 <= innerWidth 800
  /\ exists xScale,
       x Sample.parseDate Sample.series 800 = Some xScale
       /\ forall s t : Z, (s <= t)%Z -> applyTime xScale s <= applyTime xScale t.
Proof.
  destruct (bars_placed_in_date_order Sample.parseDate Sample.series 800
              innerWidth_not_negative) as [_ H].
  destruct (H (ex_intro _ Sample.mayBar
                 (ex_intro _ Sample.may1 (conj (or_introl eq_refl) eq_refl))))
    as (xScale & _ & _ & Hx & _ & _ & _ & _ & _ & _ & Hmono & _).
  split; [exact innerWidth_not_negative |].
  exists xScale. exact (conj Hx Hmono).
Defined.

Lemma line_chart_within_the_plot_witness :
  (Sample.series <> [] /\ 0 <= innerWidth 800 /\ 0 <= innerHeight 400
   /\ forall bar, In bar Sample.series -> 0 <= low bar /\ 0 <= close bar)
  /\ exists gradient color area line,
       draw Sample.parseDate Sample.series false 800 400
       = Some (AreaLine gradient color area line)
       /\ List.length line = List.length Sample.series.
Proof.
  destruct (line_chart_within_the_plot Sample.parseDate Sample.series 800 400
              StockChartExamples.series_not_empty innerWidth_not_negative
              innerHeight_positive sample_prices)
    as (yScale & gradient & color & area & line & _ & Hdraw & Hlen & _).
  split.
  - exact (conj StockChartExamples.series_not_empty
             (conj innerWidth_not_negative (conj innerHeight_positive sample_prices))).
  - exists gradient, color, area, line. exact (conj Hdraw Hlen).
Defined.

Lemma candles_within_the_plot_witness :
  (Sample.series <> [] /\ 0 <= innerHeight 400
   /\ forall bar, In bar Sample.series -> 0 <= low bar /\ 0 <= close bar)
  /\ exists yScale candles,
       y Sample.parseDate Sample.series 400 = Some yScale
       /\ draw Sample.parseDate Sample.series true 800 400 = Some (Candlesticks candles)
       /\ forall v w, v <= w -> apply yScale w <= apply yScale v.
Proof.
  destruct (candles_within_the_plot Sample.parseDate Sample.series 800 400
              StockChartExamples.series_not_empty innerHeight_positive sample_prices)
    as (yScale & candles & Hy & Hdraw & Hfall & _).
  split.
  - exact (conj StockChartExamples.series_not_empty
             (conj innerHeight_positive sample_prices)).
  - exists yScale, candles. exact (conj Hy (conj Hdraw Hfall)).
Defined.

End ChartLayout.

Module CandleSpacing.
Import D3 D3Facts ScaleFacts StockChart StockChartFacts ChartLayout.
Local Open Scope Q_scope.

(** A share of the width among [m + 1] bars, narrowed to four fifths, is
    less than a share among [m]. *)
Lemma share_below_gap (w m : Q) :
  0 <= w -> 0 < m -> w / (m + 1) * (8 # 10) <= w / m.
Proof.
  intros Hw Hm.
  pose proof (quotient_nonnegative w (m + 1) Hw ltac:(lra)) as A.
  assert (P : 0 < m * (m + 1)) by (apply Qmult_lt_0_compat; lra).
  pose proof (quotient_nonnegative w (m * (m + 1)) Hw P) as B.
  assert (E : w / m == w / (m + 1) + w / (m * (m + 1))) by (field; split; lra).
  rewrite E. revert A B. generalize (w / (m + 1)) (w / (m * (m + 1))). intros a b A B.
  lra.
Qed.

(** On a scale whose domain is [m] steps long a step is the [m]-th part
    of the range. *)
Lemma step_on_scale (start step m w v : Q) :
  0 < step -> 0 < m ->
  apply {| domain := (start, start + m * step); range := (0, w) |} (v + step)
  - apply {| domain := (start, start + m * step); range := (0, w) |} v
  == w / m.
Proof.
  intros Hs Hm. rewrite apply_difference. unfold Spec.slope. cbn [domain range].
  assert (P : 0 < m * step) by (apply Qmult_lt_0_compat; assumption).
  assert (N : ~ start + m * step - start == 0) by lra.
  destruct (Qeq_bool (start + m * step - start) 0) eqn:E;
    [apply Qeq_bool_iff in E; contradiction |].
  field. split; lra.
Qed.

Section Render.
Variable parseDate : string -> option Z.
Variable data : list StockData.

(** X13. For a series of at least two bars whose dates are evenly spaced,
    neighbouring candles are drawn the same distance apart, the inner
    width divided by the number of gaps, and the body of a candle ends
    before the body of the next begins. *)
Theorem evenly_spaced_candles_do_not_overlap :
  forall (width height : Q) (start step : Z),
    (2 <= List.length data)%nat ->
    0 <= innerWidth width ->
    (0 < step)%Z ->
    (forall k d,
        nth_error (formattedData parseDate data) k = Some d ->
        date d = Some (start + Z.of_nat k * step)%Z) ->
    exists candles,
      draw parseDate data true width height = Some (Candlesticks candles)
      /\ forall k c next,
           nth_error candles k = Some c ->
           nth_error candles (S k) = Some next ->
           exists position following,
             rect_x (body c) = Some position
             /\ rect_x (body next) = Some following
             /\ following - position
                == innerWidth width / inject_Z (Z.of_nat (List.length data) - 1)
             /\ position + rect_width (body c) <= following.
Proof.
  intros width height start step Hlen Hwidth Hstep Hdates.
  assert (Hne : data <> []) by (destruct data; [cbn in Hlen; lia | discriminate]).
  destruct (draw_candlesticks parseDate data width height Hne)
    as (yScale & Hy & Hdraw).
  set (fd := formattedData parseDate data) in *.
  assert (Hsize : List.length fd = List.length data) by apply formattedData_length.
  set (n := List.length data) in *.
  destruct (nth_error fd 0) as [d0 |] eqn:H0;
    [| apply nth_error_None in H0; lia].
  destruct (nth_error fd (n - 1)) as [d1 |] eqn:H1;
    [| apply nth_error_None in H1; lia].
  pose proof (Hdates _ d0 H0) as E0. pose proof (Hdates _ d1 H1) as E1.
  destruct (x_scale parseDate data width
              (ex_intro _ d0 (ex_intro _ _ (conj (nth_error_In _ _ H0) E0))))
    as (earliest & latest & Hx & (de & Hde & Hearliest) & (dl & Hdl & Hlatest) & Hall).
  fold fd in Hde, Hdl, Hall.
  assert (Efirst : earliest = start).
  { destruct (In_nth_error _ _ Hde) as (k & Hk).
    pose proof (Hdates k de Hk) as Ek. rewrite Hearliest in Ek.
    pose proof (Hall d0 _ (nth_error_In _ _ H0) E0) as B.
    assert (earliest = (start + Z.of_nat k * step)%Z) by congruence. nia. }
  assert (Elast : latest = (start + (Z.of_nat n - 1) * step)%Z).
  { destruct (In_nth_error _ _ Hdl) as (k & Hk).
    pose proof (Hdates k dl Hk) as Ek. rewrite Hlatest in Ek.
    pose proof (Hall d1 _ (nth_error_In _ _ H1) E1) as B.
    assert (k < n)%nat by (rewrite <- Hsize; apply nth_error_Some; congruence).
    assert (latest = (start + Z.of_nat k * step)%Z) by congruence. nia. }
  rewrite Hx, Efirst, Elast in Hdraw.
  clear Efirst Elast Hall Hearliest Hlatest Hde Hdl Hx E0 E1.
  eexists. split; [exact Hdraw |].
  intros k c next Hc Hnext.
  rewrite nth_error_map in Hc, Hnext.
  destruct (nth_error fd k) as [d |] eqn:Hd; [| discriminate].
  destruct (nth_error fd (S k)) as [d' |] eqn:Hd'; [| discriminate].
  injection Hc as <-. injection Hnext as <-.
  cbn [candlestick body rect_x rect_width].
  pose proof (Hdates k d Hd) as Ed. pose proof (Hdates (S k) d' Hd') as Ed'.
  rewrite Ed, Ed'. cbn [applyDate option_map].
  do 2 eexists. split; [reflexivity |]. split; [reflexivity |].
  assert (Enext : (start + Z.of_nat (S k) * step
                   = (start + Z.of_nat k * step) + step)%Z) by lia.
  unfold applyTime. rewrite Enext, (inject_Z_plus _ step).
  assert (Pm : 0 < inject_Z (Z.of_nat n - 1)).
  { change 0 with (inject_Z 0). rewrite <- Zlt_Qlt. lia. }
  assert (Ps : 0 < inject_Z step).
  { change 0 with (inject_Z 0). now rewrite <- Zlt_Qlt. }
  pose proof (step_on_scale (inject_Z start) (inject_Z step)
                (inject_Z (Z.of_nat n - 1)) (innerWidth width)
                (inject_Z (start + Z.of_nat k * step)) Ps Pm) as Gap.
  rewrite <- inject_Z_mult, <- inject_Z_plus in Gap.
  assert (Cap : candlestickWidth parseDate data width
                <= innerWidth width / inject_Z (Z.of_nat n - 1)).
  { unfold candlestickWidth. fold fd. rewrite Hsize.
    eapply Qle_trans; [apply Q.le_min_l |].
    assert (EN : inject_Z (Z.of_nat n) = inject_Z (Z.of_nat n - 1) + 1).
    { change 1 with (inject_Z 1). rewrite <- inject_Z_plus. f_equal. lia. }
    rewrite EN. now apply share_below_gap. }
  revert Gap Cap.
  generalize (candlestickWidth parseDate data width).
  generalize (innerWidth width / inject_Z (Z.of_nat n - 1)).
  match goal with
  | |- context [apply ?s (inject_Z ?t + inject_Z step)] =>
      generalize (apply s (inject_Z t + inject_Z step));
      generalize (apply s (inject_Z t))
  end.
  intros a b gap cw Gap Cap. split.
  - setoid_replace (b - cw / 2 - (a - cw / 2)) with (b - a) by field. exact Gap.
  - assert (E : a - cw / 2 + cw == a + cw * (1 # 2)) by field.
    assert (E' : b - cw / 2 == b - cw * (1 # 2)) by field.
    rewrite E, E'. lra.
Qed.

End Render.

Lemma sample_dates_evenly_spaced :
  forall k d,
    nth_error (formattedData Sample.parseDate Sample.series) k = Some d ->
    date d = Some (Sample.may1 + Z.of_nat k * (31 * Sample.day))%Z.
Proof.
  intros [| [| k]] d H.
  - injection H as <-. reflexivity.
  - injection H as <-. reflexivity.
  - destruct k; discriminate H.
Qed.

Lemma evenly_spaced_candles_do_not_overlap_witness :
  ((2 <= List.length Sample.series)%nat
   /\ 0 <= innerWidth 800
   /\ (0 < 31 * Sample.day)%Z)
  /\ exists candles,
       draw Sample.parseDate Sample.series true 800 400 = Some (Candlesticks candles).
Proof.
  assert (Hstep : (0 < 31 * Sample.day)%Z) by reflexivity.
  destruct (evenly_spaced_candles_do_not_overlap Sample.parseDate Sample.series 800 400
              Sample.may1 (31 * Sample.day)
              (le_n 2) innerWidth_not_negative Hstep sample_dates_evenly_spaced)
    as (candles & Hdraw & _).
  split; [exact (conj (le_n 2) (conj innerWidth_not_negative Hstep)) |].
  exists candles. exact Hdraw.
Defined.

End CandleSpacing.

(** ** The search form *)

Module SearchFacts.
Local Open Scope string_scope.

Lemma trimStart_split (s : string) :
  exists before, s = before ++ JS.trimStart s /\ Spec.blank before = true.
Proof.
  induction s as [| c rest (before & E & B)].
  - exists "". split; reflexivity.
  - cbn [JS.trimStart]. destruct (JS.isWhiteSpace c) eqn:W.
    + exists (String c before). cbn [append Spec.blank]. rewrite W, B.
      split; [now f_equal | reflexivity].
    + exists "". split; reflexivity.
Qed.

Lemma trimEnd_split (s : string) :
  exists after, s = JS.trimEnd s ++ after /\ Spec.blank after = true.
Proof.
  induction s as [| c rest (after & E & B)].
  - exists "". split; reflexivity.
  - cbn [JS.trimEnd]. destruct (JS.trimEnd rest) as [| c' rest'] eqn:T.
    + destruct (JS.isWhiteSpace c) eqn:W.
      * exists (String c rest). cbn [append Spec.blank].
        split; [reflexivity |]. rewrite W. cbn [append] in E. now rewrite E.
      * exists after. split; [| exact B]. cbn [append] in *. now f_equal.
    + exists after. split; [| exact B]. cbn [append] in *. now f_equal.
Qed.

Lemma trimStart_head (s : string) (c : ascii) (rest : string) :
  JS.trimStart s = String c rest -> JS.isWhiteSpace c = false.
Proof.
  induction s as [| a s IH]; [discriminate |].
  cbn [JS.trimStart]. destruct (JS.isWhiteSpace a) eqn:W; [exact IH |].
  now intros [= <- _].
Qed.

Lemma trimEnd_head (s : string) (c : ascii) (rest : string) :
  JS.trimEnd s = String c rest -> exists rest', s = String c rest'.
Proof.
  destruct s as [| a s]; [discriminate |].
  cbn [JS.trimEnd]. destruct (JS.trimEnd s).
  - destruct (JS.isWhiteSpace a); [discriminate |]. intros [= <- _]. eauto.
  - intros [= <- _]. eauto.
Qed.

Lemma trimEnd_last (s rest : string) (c : ascii) :
  JS.trimEnd s = rest ++ String c "" -> JS.isWhiteSpace c = false.
Proof.
  revert rest. induction s as [| a s IH]; intros rest.
  - destruct rest; discriminate.
  - cbn [JS.trimEnd]. destruct (JS.trimEnd s) as [| c' rest'] eqn:T.
    + destruct (JS.isWhiteSpace a) eqn:W.
      * destruct rest; discriminate.
      * destruct rest as [| b rest]; cbn [append].
        -- now intros [= <-].
        -- intros [= _ H]. destruct rest; discriminate.
    + destruct rest as [| b rest]; cbn [append].
      * discriminate.
      * intros [= _ H]. apply (IH rest). exact H.
Qed.

Lemma trim_trimmed (s : string) : Spec.trimmed (JS.trim s).
Proof.
  unfold JS.trim. split.
  - intros c rest E. destruct (trimEnd_head _ _ _ E) as (rest' & E').
    apply (trimStart_head s c rest'). exact E'.
  - intros rest c E. apply (trimEnd_last _ _ _ E).
Qed.

Lemma trim_split (s : string) :
  exists before after,
    s = before ++ JS.trim s ++ after
    /\ Spec.blank before = true /\ Spec.blank after = true.
Proof.
  destruct (trimStart_split s) as (before & E1 & B1).
  destruct (trimEnd_split (JS.trimStart s)) as (after & E2 & B2).
  exists before, after. unfold JS.trim. rewrite <- E2, <- E1. auto.
Qed.

Lemma truthyString_nonempty (s : string) : JS.truthyString s = true <-> s <> "".
Proof.
  unfold JS.truthyString. destruct s; cbn; split; congruence.
Qed.

Lemma trimStart_blank (s : string) : Spec.blank s = true -> JS.trimStart s = "".
Proof.
  induction s as [| c rest IH]; [reflexivity |].
  cbn [Spec.blank]. intros B. apply andb_prop in B. destruct B as [W B].
  cbn [JS.trimStart]. rewrite W. now apply IH.
Qed.

(** What the form hands to [onSearch]. *)
Lemma search_box_text (query submitted : string) :
  StockSearch.handleSubmit query = Some submitted ->
  submitted = JS.trim query
  /\ submitted <> ""
  /\ Spec.trimmed submitted
  /\ exists before after,
       query = before ++ submitted ++ after
       /\ Spec.blank before = true /\ Spec.blank after = true.
Proof.
  unfold StockSearch.handleSubmit.
  destruct (JS.truthyString (JS.trim query)) eqn:T; cbn [negb]; [| discriminate].
  intros [= <-]. split; [reflexivity |].
  split; [now apply truthyString_nonempty |].
  split; [apply trim_trimmed | apply trim_split].
Qed.

(** X14. The search form: the submit button is disabled exactly when a
    submission would not call [onSearch]; a query of white space only is
    not submitted; and the text submitted is the query without the white
    space around it, hence not empty and neither starting nor ending
    with white space. *)
Theorem search_box_submits_trimmed_text :
  forall query : string,
    (StockSearch.disabled query = true <-> StockSearch.handleSubmit query = None)
    /\ (Spec.blank query = true -> StockSearch.handleSubmit query = None)
    /\ forall submitted,
         StockSearch.handleSubmit query = Some submitted ->
         submitted = JS.trim query
         /\ submitted <> ""
         /\ Spec.trimmed submitted
         /\ exists before after,
              query = before ++ submitted ++ after
              /\ Spec.blank before = true /\ Spec.blank after = true.
Proof.
  intros query. split; [| split].
  - unfold StockSearch.disabled, StockSearch.handleSubmit.
    destruct (JS.truthyString (JS.trim query)); cbn; split; congruence.
  - intros B. unfold StockSearch.handleSubmit, JS.trim.
    rewrite (trimStart_blank query B). reflexivity.
  - apply search_box_text.
Qed.

Lemma search_box_submits_trimmed_text_witness :
  StockSearch.handleSubmit "  reliance.bse " = Some "reliance.bse"
  /\ "reliance.bse" <> "".
Proof.
  destruct (search_box_submits_trimmed_text "  reliance.bse ") as (_ & _ & H).
  destruct (H "reliance.bse" eq_refl) as (_ & Hne & _).
  exact (conj eq_refl Hne).
Defined.

End SearchFacts.

(** ** The state of the page and its request *)

Module HomeStateFacts.
Import SearchFacts HomeView.
Local Open Scope string_scope.

Ltac each_character c := destruct c as [[] [] [] [] [] [] [] []].

Lemma upper_isWhiteSpace (c : ascii) : JS.isWhiteSpace (JS.upper c) = JS.isWhiteSpace c.
Proof. each_character c; reflexivity. Qed.

Lemma upper_isLower (c : ascii) : JS.isLower (JS.upper c) = false.
Proof. each_character c; reflexivity. Qed.

Lemma toUpperCase_upperCase (s : string) : Spec.upperCase (JS.toUpperCase s) = true.
Proof.
  induction s as [| c rest IH]; [reflexivity |].
  cbn [JS.toUpperCase Spec.upperCase]. now rewrite upper_isLower, IH.
Qed.

Lemma toUpperCase_length (s : string) :
  String.length (JS.toUpperCase s) = String.length s.
Proof. induction s as [| c rest IH]; [reflexivity |]. cbn. now rewrite IH. Qed.

Lemma toUpperCase_last (s rest : string) (c : ascii) :
  JS.toUpperCase s = rest ++ String c "" ->
  exists rest0 c0, s = rest0 ++ String c0 "" /\ c = JS.upper c0.
Proof.
  revert rest. induction s as [| a s IH]; intros rest.
  - destruct rest; discriminate.
  - cbn [JS.toUpperCase]. destruct rest as [| b rest]; cbn [append].
    + intros [= <- H]. destruct s; [| discriminate]. exists "", a. split; reflexivity.
    + intros [= <- H]. destruct (IH rest H) as (rest0 & c0 & -> & ->).
      exists (String a rest0), c0. split; reflexivity.
Qed.

Lemma toUpperCase_trimmed (s : string) :
  Spec.trimmed s -> Spec.trimmed (JS.toUpperCase s).
Proof.
  intros [Hhead Hlast]. split.
  - intros c rest E. destruct s as [| a s]; [discriminate |].
    cbn [JS.toUpperCase] in E. injection E as <- _.
    rewrite upper_isWhiteSpace. now apply (Hhead a s).
  - intros rest c E. destruct (toUpperCase_last s rest c E) as (rest0 & c0 & E0 & ->).
    rewrite upper_isWhiteSpace. now apply (Hlast rest0 c0).
Qed.

Lemma toUpperCase_fixed (s : string) :
  Spec.upperCase s = true -> JS.toUpperCase s = s.
Proof.
  induction s as [| c rest IH]; [reflexivity |].
  cbn [Spec.upperCase JS.toUpperCase]. intros H. apply andb_prop in H.
  destruct H as [L U]. rewrite (IH U). unfold JS.upper.
  destruct (JS.isLower c); [discriminate | reflexivity].
Qed.

Lemma handleSearch_of_submitted (query submitted : string) :
  StockSearch.handleSubmit query = Some submitted ->
  handleSearch submitted = Some (JS.toUpperCase submitted).
Proof.
  intros H. destruct (search_box_text query submitted H) as (_ & Hne & _).
  unfold handleSearch. apply truthyString_nonempty in Hne. now rewrite Hne.
Qed.

Lemma trim_fixed (s : string) : Spec.trimmed s -> JS.trim s = s.
Proof.
  intros [Hhead Hlast]. unfold JS.trim.
  assert (E : JS.trimStart s = s).
  { destruct s as [| c rest]; [reflexivity |].
    cbn [JS.trimStart]. now rewrite (Hhead c rest eq_refl). }
  rewrite E. clear E Hhead.
  induction s as [| c rest IH]; [reflexivity |].
  cbn [JS.trimEnd].
  destruct rest as [| c' rest'].
  - cbn [JS.trimEnd]. now rewrite (Hlast "" c eq_refl).
  - rewrite IH; [reflexivity |].
    intros r c0 E. apply (Hlast (String c r) c0). cbn [append]. now f_equal.
Qed.

(** X15. Submitting the search form leaves the state as it is when the query
    is blank, and otherwise sets the symbol to the trimmed query in
    upper case and nothing else; [handleSearch] never declines what the
    form submits; submitting the same query twice is the same as
    submitting it once. *)
Theorem submitting_a_search_sets_the_symbol :
  forall (s : State) (query : string),
    (JS.trim query = "" -> step s (Submit query) = s)
    /\ (JS.trim query <> "" ->
        step s (Submit query)
        = {| symbol := JS.toUpperCase (JS.trim query);
             timeRange := timeRange s;
             showCandlestick := showCandlestick s |})
    /\ (forall submitted,
           StockSearch.handleSubmit query = Some submitted ->
           handleSearch submitted = Some (JS.toUpperCase submitted))
    /\ step (step s (Submit query)) (Submit query) = step s (Submit query).
Proof.
  intros s query.
  assert (Hblank : JS.trim query = "" -> step s (Submit query) = s).
  { intros E. cbn [step]. unfold StockSearch.handleSubmit. now rewrite E. }
  assert (Hset : JS.trim query <> "" ->
                 forall s, step s (Submit query)
                           = {| symbol := JS.toUpperCase (JS.trim query);
                                timeRange := timeRange s;
                                showCandlestick := showCandlestick s |}).
  { intros N s'. cbn [step].
    assert (H : StockSearch.handleSubmit query = Some (JS.trim query)).
    { unfold StockSearch.handleSubmit. apply truthyString_nonempty in N. now rewrite N. }
    now rewrite H, (handleSearch_of_submitted query _ H). }
  split; [exact Hblank |]. split; [intros N; apply (Hset N) |].
  split; [apply handleSearch_of_submitted |].
  destruct (string_dec (JS.trim query) "") as [E | N].
  - now rewrite !(Hblank E).
  - now rewrite !(Hset N).
Qed.

Lemma submitting_a_search_sets_the_symbol_witness :
  JS.trim " reliance.bse " <> ""
  /\ step initial (Submit " reliance.bse ")
     = {| symbol := "RELIANCE.BSE"; timeRange := "1M"; showCandlestick := false |}.
Proof.
  assert (N : JS.trim " reliance.bse " <> "") by discriminate.
  destruct (submitting_a_search_sets_the_symbol initial " reliance.bse ") as (_ & H & _).
  exact (conj N (H N)).
Defined.

(** What every state of the component satisfies. *)
Lemma symbol_invariant_step (s : State) (e : Event) :
  symbol s <> "" /\ Spec.trimmed (symbol s) /\ Spec.upperCase (symbol s) = true ->
  symbol (step s e) <> "" /\ Spec.trimmed (symbol (step s e))
  /\ Spec.upperCase (symbol (step s e)) = true.
Proof.
  intros Inv. destruct e as [query | value | checked]; cbn [step].
  - destruct (StockSearch.handleSubmit query) as [submitted |] eqn:H; [| exact Inv].
    rewrite (handleSearch_of_submitted query submitted H). cbn [symbol].
    destruct (search_box_text query submitted H) as (_ & Hne & Htrimmed & _).
    split; [| split].
    + intros E. apply Hne. destruct submitted; [reflexivity | discriminate].
    + now apply toUpperCase_trimmed.
    + apply toUpperCase_upperCase.
  - destruct (JS.truthyString value); exact Inv.
  - exact Inv.
Qed.

Lemma symbol_invariant (events : list Event) (s : State) :
  symbol s <> "" /\ Spec.trimmed (symbol s) /\ Spec.upperCase (symbol s) = true ->
  symbol (fold_left step events s) <> ""
  /\ Spec.trimmed (symbol (fold_left step events s))
  /\ Spec.upperCase (symbol (fold_left step events s)) = true.
Proof.
  revert s. induction events as [| e events IH]; intros s Inv; [exact Inv |].
  cbn [fold_left]. apply IH. now apply symbol_invariant_step.
Qed.

Lemma range_invariant (events : list Event) (s : State) :
  (forall value, In (ValueChange value) events -> value = "" \/ In value rangeKeys) ->
  In (timeRange s) rangeKeys ->
  In (timeRange (fold_left step events s)) rangeKeys.
Proof.
  revert s. induction events as [| e events IH]; intros s He Inv; [exact Inv |].
  cbn [fold_left]. apply IH; [intros value Hv; apply He; now right |].
  destruct e as [query | value | checked]; cbn [step].
  - destruct (StockSearch.handleSubmit query) as [submitted |]; [| exact Inv].
    destruct (handleSearch submitted); exact Inv.
  - destruct (JS.truthyString value) eqn:T; [| exact Inv].
    cbn [timeRange]. destruct (He value (or_introl eq_refl)) as [-> | H];
      [discriminate | exact H].
  - exact Inv.
Qed.

Lemma key_of_range (symbol timeRange : string) :
  symbol <> "" -> In timeRange rangeKeys ->
  exists url, key symbol timeRange = Some (inr url).
Proof.
  intros Hs Hr. unfold key. apply truthyString_nonempty in Hs. rewrite Hs.
  unfold params.
  destruct Hr as [<- | [<- | [<- | [<- | [<- | [<- | []]]]]]];
    cbn [TIME_RANGES String.eqb Ascii.eqb Bool.eqb]; eexists; reflexivity.
Qed.

Lemma initial_symbol :
  symbol initial <> "" /\ Spec.trimmed (symbol initial)
  /\ Spec.upperCase (symbol initial) = true.
Proof.
  split; [discriminate |]. split; [| reflexivity].
  change (symbol initial) with (JS.trim "TATAMOTORS.BSE"). apply trim_trimmed.
Qed.

(** X16. In every state the component reaches from its initial state the
    symbol is not empty, neither starts nor ends with white space and has
    no lower-case letter; so the key of [useSWR] is never [null], and
    submitting the symbol shown changes nothing.  When the toggle group
    only ever reports the empty value or one of its six items, the time
    range is one of the six and the key is a URL (building it does not
    throw). *)
Theorem every_state_has_a_request :
  forall events : list Event,
    (symbol (run events) <> ""
     /\ Spec.trimmed (symbol (run events))
     /\ Spec.upperCase (symbol (run events)) = true
     /\ key (symbol (run events)) (timeRange (run events)) <> None
     /\ step (run events) (Submit (symbol (run events))) = run events)
    /\ ((forall value, In (ValueChange value) events ->
                       value = "" \/ In value rangeKeys) ->
        In (timeRange (run events)) rangeKeys
        /\ exists url,
             key (symbol (run events)) (timeRange (run events)) = Some (inr url)).
Proof.
  intros events. unfold run.
  destruct (symbol_invariant events initial initial_symbol) as (Hne & Ht & Hu).
  split.
  - split; [exact Hne |]. split; [exact Ht |]. split; [exact Hu |]. split.
    + unfold key. apply truthyString_nonempty in Hne. rewrite Hne. discriminate.
    + set (s := fold_left step events initial) in *. clearbody s.
      cbn [step]. unfold StockSearch.handleSubmit. rewrite (trim_fixed _ Ht).
      apply truthyString_nonempty in Hne. rewrite Hne. cbn [negb].
      unfold handleSearch. rewrite Hne. cbn [negb].
      rewrite (toUpperCase_fixed _ Hu). now destruct s.
  - intros He.
    assert (Hr : In (timeRange (fold_left step events initial)) rangeKeys).
    { apply range_invariant; [exact He | right; left; reflexivity]. }
    split; [exact Hr |]. now apply key_of_range.
Qed.

Lemma every_state_has_a_request_witness :
  (forall value,
      In (ValueChange value) [Submit " reliance.bse "; ValueChange "5Y"; ValueChange ""] ->
      value = "" \/ In value rangeKeys)
  /\ exists url,
       key (symbol (run [Submit " reliance.bse "; ValueChange "5Y"; ValueChange ""]))
           (timeRange (run [Submit " reliance.bse "; ValueChange "5Y"; ValueChange ""]))
       = Some (inr url).
Proof.
  assert (He : forall value,
             In (ValueChange value)
                [Submit " reliance.bse "; ValueChange "5Y"; ValueChange ""] ->
             value = "" \/ In value rangeKeys).
  { intros value [H | [H | [H | []]]]; try discriminate H; injection H as <-.
    - right. do 4 right. left. reflexivity.
    - left. reflexivity. }
  destruct (every_state_has_a_request
              [Submit " reliance.bse "; ValueChange "5Y"; ValueChange ""]) as [_ H].
  destruct (H He) as (_ & Hurl).
  exact (conj He Hurl).
Defined.

(** The request of the first render, and the one after a search for
    [reliance.bse] and a switch to five years. *)
Lemma request_examples :
  key (symbol initial) (timeRange initial)
  = Some (inr "https://www.alphavantage.co/query?function=TIME_SERIES_DAILY&symbol=TATAMOTORS.BSE&outputsize=compact&apikey=T7GCMIKGFV6I3TEX")
  /\ key (symbol (run [Submit " reliance.bse "; ValueChange "5Y"; ValueChange ""]))
         (timeRange (run [Submit " reliance.bse "; ValueChange "5Y"; ValueChange ""]))
     = Some (inr "https://www.alphavantage.co/query?function=TIME_SERIES_MONTHLY&symbol=RELIANCE.BSE&apikey=T7GCMIKGFV6I3TEX")
  /\ key "M&M.BSE" "1D"
     = Some (inr "https://www.alphavantage.co/query?function=TIME_SERIES_INTRADAY&symbol=M%26M.BSE&interval=5min&outputsize=full&apikey=T7GCMIKGFV6I3TEX").
Proof. repeat split. Qed.

End HomeStateFacts.

Module RequestFacts.
Import SearchFacts HomeStateFacts HomeView.
Local Open Scope string_scope.

Lemma append_assoc (a b c : string) : (a ++ b) ++ c = a ++ (b ++ c).
Proof. induction a as [| x a IH]; [reflexivity |]. cbn [append]. now rewrite IH. Qed.

Lemma append_length (a b : string) :
  String.length (a ++ b) = (String.length a + String.length b)%nat.
Proof. induction a as [| x a IH]; [reflexivity |]. cbn. now rewrite IH. Qed.

Lemma append_cancel_l (a b c : string) : a ++ b = a ++ c -> b = c.
Proof. induction a as [| x a IH]; [trivial |]. cbn [append]. intros [= H]. now apply IH. Qed.

Lemma append_cancel_r (a b c : string) : a ++ c = b ++ c -> a = b.
Proof.
  revert b. induction a as [| x a IH]; intros b H.
  - destruct b as [| y b]; [reflexivity |].
    apply (f_equal String.length) in H. cbn in H. rewrite append_length in H. lia.
  - destruct b as [| y b].
    + apply (f_equal String.length) in H. cbn in H. rewrite append_length in H. lia.
    + cbn [append] in H. injection H as -> H. f_equal. now apply IH.
Qed.

Lemma urldecode_urlencode_character (c : ascii) (rest : string) :
  Spec.urldecode (JS.urlencode (String c rest))
  = String c (Spec.urldecode (JS.urlencode rest)).
Proof. each_character c; reflexivity. Qed.

(** Decoding undoes the encoding of a parameter. *)
Lemma urldecode_urlencode (s : string) : Spec.urldecode (JS.urlencode s) = s.
Proof.
  induction s as [| c rest IH]; [reflexivity |].
  now rewrite urldecode_urlencode_character, IH.
Qed.

Lemma urlencode_injective (s t : string) : JS.urlencode s = JS.urlencode t -> s = t.
Proof.
  intros H. apply (f_equal Spec.urldecode) in H.
  now rewrite !urldecode_urlencode in H.
Qed.

(** The serialized parameters are a text before the encoded symbol and
    a text after it, neither of which depends on the symbol. *)
Lemma URLSearchParams_symbol (f symbol : string) (others : list (string * string)) :
  others <> [] ->
  JS.URLSearchParams (("function", f) :: ("symbol", symbol) :: others)
  = (JS.urlencode "function" ++ "=" ++ JS.urlencode f ++ "&"
     ++ JS.urlencode "symbol" ++ "=")
    ++ JS.urlencode symbol ++ ("&" ++ JS.URLSearchParams others).
Proof.
  intros H. destruct others as [| other others]; [congruence |].
  change (JS.URLSearchParams (("function", f) :: ("symbol", symbol) :: other :: others))
    with ((JS.urlencode "function" ++ "=" ++ JS.urlencode f) ++ "&"
          ++ (JS.urlencode "symbol" ++ "=" ++ JS.urlencode symbol) ++ "&"
          ++ JS.URLSearchParams (other :: others)).
  now rewrite !append_assoc.
Qed.

Lemma Some_inr_injective {E A : Type} (a b : A) :
  Some (inr a : E + A) = Some (inr b) -> a = b.
Proof. now intros [= H]. Qed.

Lemma key_shape (symbol timeRange url : string) :
  key symbol timeRange = Some (inr url) ->
  exists before after,
    url = before ++ JS.urlencode symbol ++ after
    /\ forall other, other <> "" ->
         key other timeRange = Some (inr (before ++ JS.urlencode other ++ after)).
Proof.
  unfold key. destruct (JS.truthyString symbol); [| discriminate].
  unfold params. destruct (TIME_RANGES timeRange) as [range |]; [| discriminate].
  intros H. apply Some_inr_injective in H. subst url.
  assert (N : (optional "interval" (interval range)
               ++ optional "outputsize" (outputsize range)
               ++ [("apikey", ALPHA_VANTAGE_API_KEY)])%list <> []).
  { intros E. apply app_eq_nil in E. destruct E as [_ E].
    apply app_eq_nil in E. destruct E as [_ E]. discriminate E. }
  revert N.
  generalize (optional "interval" (interval range)
              ++ optional "outputsize" (outputsize range)
              ++ [("apikey", ALPHA_VANTAGE_API_KEY)])%list.
  intros others N.
  exists ("https://www.alphavantage.co/query?"
          ++ JS.urlencode "function" ++ "=" ++ JS.urlencode (function range) ++ "&"
          ++ JS.urlencode "symbol" ++ "="),
         ("&" ++ JS.URLSearchParams others).
  split.
  - change ([("function", function range); ("symbol", symbol)] ++ others)%list
      with (("function", function range) :: ("symbol", symbol) :: others).
    rewrite (URLSearchParams_symbol _ _ _ N). now rewrite !append_assoc.
  - intros other Hother. apply truthyString_nonempty in Hother. rewrite Hother.
    change ([("function", function range); ("symbol", other)] ++ others)%list
      with (("function", function range) :: ("symbol", other) :: others).
    rewrite (URLSearchParams_symbol _ _ _ N). now rewrite !append_assoc.
Qed.

(** X17. Under one time range two symbols with the same request URL are the
    same symbol, so no two symbols share a cache key of [useSWR]: the
    encoding of a parameter can be decoded.  The ranges 5Y and ALL
    request the same URL. *)
Theorem requests_tell_symbols_apart :
  (forall symbol1 symbol2 timeRange url : string,
      key symbol1 timeRange = Some (inr url) ->
      key symbol2 timeRange = Some (inr url) ->
      symbol1 = symbol2)
  /\ (forall s, Spec.urldecode (JS.urlencode s) = s)
  /\ (forall symbol, key symbol "5Y" = key symbol "ALL").
Proof.
  split; [| split; [exact urldecode_urlencode | reflexivity]].
  intros symbol1 symbol2 timeRange url H1 H2.
  destruct (key_shape symbol1 timeRange url H1) as (before & after & E1 & Hother).
  assert (N : symbol2 <> "").
  { intros ->. discriminate H2. }
  rewrite (Hother symbol2 N) in H2. apply Some_inr_injective in H2.
  rewrite E1 in H2. apply append_cancel_l, append_cancel_r in H2.
  symmetry. now apply urlencode_injective.
Qed.

Lemma requests_tell_symbols_apart_witness :
  key "M&M.BSE" "1D"
  = Some (inr "https://www.alphavantage.co/query?function=TIME_SERIES_INTRADAY&symbol=M%26M.BSE&interval=5min&outputsize=full&apikey=T7GCMIKGFV6I3TEX")
  /\ forall symbol,
       key symbol "1D"
       = Some (inr "https://www.alphavantage.co/query?function=TIME_SERIES_INTRADAY&symbol=M%26M.BSE&interval=5min&outputsize=full&apikey=T7GCMIKGFV6I3TEX") ->
       "M&M.BSE" = symbol.
Proof.
  split; [reflexivity |].
  intros symbol.
  apply (proj1 requests_tell_symbols_apart "M&M.BSE" symbol "1D" _ eq_refl).
Defined.

End RequestFacts.

(** ** What the page shows *)

Module PageFacts.
Import D3 D3Facts StockChart StockChartFacts Home FilterFacts HomeView.
Local Open Scope Q_scope.

(** A non-empty series is drawn, in either mode. *)
Lemma draw_defined (parseDate : string -> option Z) (data : list StockData)
      (showCandlestick : bool) (width height : Q) :
  data <> [] ->
  exists glyphs, draw parseDate data showCandlestick width height = Some glyphs.
Proof.
  intros Hne.
  destruct (y_defined parseDate data height Hne) as (lowest & highest & Hy & _).
  destruct (chartColor_defined parseDate data Hne) as (color & Hcolor).
  pose proof (formattedData_nonempty parseDate data Hne) as Hfd.
  destruct (min_spec (fun d : Bar (option Z) => low d) _ Hfd) as (l & Hl & _).
  destruct (max_spec (fun d : Bar (option Z) => high d) _ Hfd) as (h & Hh & _).
  unfold draw. destruct data; [congruence |].
  cbn [List.length Nat.eqb]. rewrite Hcolor, Hy. unfold glyphs.
  destruct showCandlestick; cbn [negb]; [eauto |]. rewrite Hl, Hh. eauto.
Qed.

Lemma length_positive {A : Type} (l : list A) :
  (0 <? List.length l)%nat = true <-> l <> [].
Proof. destruct l; cbn; split; congruence. Qed.

(** X18. The chart is shown exactly when nothing is loading, there is no error
    and the filtered series is not empty, and then the renderer draws
    (its guard on an empty series never fires).  The cards are shown
    whenever nothing is loading and the filtered series is not empty,
    error or not: opening price of its first bar, close and volume (in
    millions) of its last, and the change.  With an empty filtered series
    neither cards nor chart are shown. *)
Theorem page_shows_the_chart_only_with_data :
  forall (parseDate : string -> option Z) (data : option (list StockData))
         (error : option Exception) (isLoading : bool)
         (filtered : list StockData) (showCandlestick : bool),
    (forall content,
        chartArea parseDate error isLoading filtered showCandlestick = Content content ->
        isLoading = false /\ error = None /\ filtered <> []
        /\ exists glyphs, content = Some glyphs)
    /\ (isLoading = false -> error = None -> filtered <> [] ->
        exists glyphs,
          chartArea parseDate error isLoading filtered showCandlestick
          = Content (Some glyphs))
    /\ (isLoading = false -> filtered <> [] ->
        exists shown first last,
          cards data isLoading filtered = Content shown
          /\ nth_error filtered 0 = Some first
          /\ nth_error filtered (List.length filtered - 1) = Some last
          /\ openingPrice shown = open first
          /\ currentPrice shown = close last
          /\ volumeMillions shown == volume last / 1000000
          /\ changePercent shown = Home.change data)
    /\ (isLoading = false -> filtered = [] ->
        cards data isLoading filtered = Nothing
        /\ (error = None ->
            chartArea parseDate error isLoading filtered showCandlestick = Nothing)).
Proof.
  intros parseDate data error isLoading filtered showCandlestick.
  split; [| split; [| split]].
  - intros content. unfold chartArea.
    destruct isLoading; [discriminate |].
    destruct error; [discriminate |].
    destruct (0 <? List.length filtered)%nat eqn:L; [| discriminate].
    apply length_positive in L. intros [= <-].
    repeat split; try assumption. now apply draw_defined.
  - intros -> -> Hne. unfold chartArea.
    apply length_positive in Hne. rewrite Hne. apply length_positive in Hne.
    destruct (draw_defined parseDate filtered showCandlestick 800 400 Hne) as (g & ->).
    now exists g.
  - intros -> Hne. unfold cards.
    destruct (nth_error_last filtered Hne) as (last & Hlast).
    destruct filtered as [| first rest]; [congruence |].
    cbn [List.length Nat.ltb Nat.leb]. cbn [List.length] in Hlast.
    eexists. exists first, last. rewrite Hlast. cbn [nth_error].
    split; [reflexivity |]. repeat split; reflexivity.
  - intros -> ->. split; [reflexivity |]. now intros ->.
Qed.

Lemma page_shows_the_chart_only_with_data_witness :
  Sample.series <> []
  /\ exists glyphs,
       chartArea Sample.parseDate None false Sample.series false
       = Content (Some glyphs).
Proof.
  destruct (page_shows_the_chart_only_with_data Sample.parseDate (Some Sample.series)
              None false Sample.series false) as (_ & H & _).
  exact (conj StockChartExamples.series_not_empty
              (H eq_refl eq_refl StockChartExamples.series_not_empty)).
Defined.

Lemma formattedData_nth (parseDate : string -> option Z) (data : list (Bar string))
      (k : nat) (bar : Bar string) :
  nth_error data k = Some bar ->
  nth_error (formattedData parseDate data) k
  = Some {| date := parseDate (date bar); open := open bar; high := high bar;
            low := low bar; close := close bar; volume := volume bar |}.
Proof. intros H. unfold formattedData. now rewrite nth_error_map, H. Qed.

Lemma sign_of_percentage (x c : Q) : 0 < c -> (0 <= x / c * 100 <-> 0 <= x).
Proof.
  intros Hc.
  assert (K : 0 < / c * 100).
  { apply Qmult_lt_0_compat; [now apply Qinv_lt_0_compat | reflexivity]. }
  assert (E : x / c * 100 == x * (/ c * 100)) by (unfold Qdiv; ring).
  rewrite E. revert K. generalize (/ c * 100). intros k K. split.
  - intros H. destruct (Qlt_le_dec x 0) as [N | P]; [| exact P].
    assert (0 < (- x) * k) by (apply Qmult_lt_0_compat; lra).
    assert ((- x) * k == - (x * k)) by ring. lra.
  - intros H. apply Qmult_le_0_compat; lra.
Qed.

(** X19. Under the range ALL, for a series whose first close is positive, the
    change card is green exactly when the chart has the up colour; the
    icon of the card always matches its colour. *)
Theorem card_and_chart_colours_agree :
  forall (parseDate : string -> option Z) (tza : Z) (bars : list StockData)
         (first : StockData) (now cutoffDate : Z),
    nth_error bars 0 = Some first ->
    0 < close first ->
    (getChangeColor (Home.change (Some bars)) = "text-green-500"%string
     <-> chartColor parseDate (filteredData tza (Some bars) "ALL" now cutoffDate)
         = Some upColor)
    /\ (getChangeIcon (Home.change (Some bars)) = TrendingUp
        <-> getChangeColor (Home.change (Some bars)) = "text-green-500"%string).
Proof.
  intros parseDate tza bars first now cutoffDate Hfirst Hpositive.
  assert (Hne : bars <> []) by (destruct bars; [discriminate | discriminate]).
  destruct (nth_error_last bars Hne) as (last & Hlast).
  assert (Hfiltered : filteredData tza (Some bars) "ALL" now cutoffDate = bars)
    by reflexivity.
  rewrite Hfiltered. clear Hfiltered.
  assert (Hcolor : chartColor parseDate bars
                   = Some (if Qle_bool 0 (close last - close first)
                           then upColor else downColor)).
  { pose proof (formattedData_nth parseDate bars _ _ Hfirst) as F0.
    pose proof (formattedData_nth parseDate bars _ _ Hlast) as F1.
    rewrite <- (formattedData_length parseDate bars) in F1.
    unfold chartColor, priceChange. rewrite F0, F1. reflexivity. }
  assert (Hchange : Qle_bool 0 (Home.change (Some bars))
                    = Qle_bool 0 (close last - close first)).
  { unfold Home.change, calculateChange.
    destruct (List.length bars <? 2)%nat eqn:L.
    - apply Nat.ltb_lt in L.
      assert (E : last = first).
      { destruct bars as [| a [| b rest]]; cbn in *; [discriminate | congruence | lia]. }
      subst last. apply eq_true_iff_eq. rewrite !Qle_bool_iff. split; intros _; lra.
    - rewrite Hlast, Hfirst. apply eq_true_iff_eq. rewrite !Qle_bool_iff.
      now apply sign_of_percentage. }
  unfold getChangeColor, getChangeIcon. rewrite Hcolor, Hchange.
  destruct (Qle_bool 0 (close last - close first)); split; split;
    (reflexivity || discriminate).
Qed.

Lemma sample_first : nth_error Sample.series 0 = Some Sample.may.
Proof. reflexivity. Defined.

Lemma sample_first_close : 0 < close Sample.may.
Proof. reflexivity. Defined.

Lemma card_and_chart_colours_agree_witness :
  (nth_error Sample.series 0 = Some Sample.may /\ 0 < close Sample.may)
  /\ (getChangeColor (Home.change (Some Sample.series)) = "text-green-500"%string
      <-> chartColor Sample.parseDate
            (filteredData Sample.tza (Some Sample.series) "ALL" Sample.now Sample.now)
          = Some upColor).
Proof.
  destruct (card_and_chart_colours_agree Sample.parseDate Sample.tza Sample.series
              Sample.may Sample.now Sample.now sample_first sample_first_close)
    as [H _].
  exact (conj (conj sample_first sample_first_close) H).
Defined.

End PageFacts.

